(** * AiDotNet source-file patch scripts: a shallow embedding

    The repository's maintenance scripts read C# source files, look for
    textual patterns and write the files back:

    - [fix_simpleautoml_indentation.py] and
      [fix_interpretable_region_indentation.py] re-indent the lines between
      two region markers;
    - [fix_remaining_cs0535.py] inserts a missing [using] line;
    - [fix_async_errors.py] counts [async Task] / [await] occurrences.

    Python [str] values are modelled as lists of characters (code points
    below 256), the file system as a finite map from paths to nodes, and the
    scripts themselves in a small state-and-exception monad over a world
    made of the file system, the trace of write calls and the console. *)

From Stdlib Require Import Ascii String DecimalString ZArith Lia.
From stdpp Require Import base option list gmap strings.

(** ** Python text primitives *)

Module Text.

Definition text := list ascii.

(** A literal of the source, as a [text]. *)
Definition str (s : string) : text := list_ascii_of_string s.

Definition NL : ascii := "010"%char.

(** [s.startswith(p)] *)
Fixpoint startswith (s p : text) {struct p} : bool :=
  match p, s with
  | [], _ => true
  | _ :: _, [] => false
  | a :: p', b :: s' => Ascii.eqb a b && startswith s' p'
  end.

(** [p in s]: substring containment. *)
Fixpoint contains (p s : text) : bool :=
  startswith s p ||
  match s with
  | [] => false
  | _ :: s' => contains p s'
  end.

(** Number of positions of [s] at which an occurrence of [p] starts. *)
Fixpoint occurrences (p s : text) : nat :=
  (if startswith s p then 1 else 0) +
  match s with
  | [] => 0
  | _ :: s' => occurrences p s'
  end.

(** [str.isspace] on one character, which is also the class [\s] of
    [re] on [str] patterns: TAB, LF, VT, FF, CR, FS, GS, RS, US, SPACE,
    NEL and NBSP are the white-space code points below 256. *)
Definition isspace (c : ascii) : bool :=
  let n := nat_of_ascii c in
  ((9 <=? n) && (n <=? 13) || (28 <=? n) && (n <=? 32)
   || (n =? 133) || (n =? 160))%nat.

Fixpoint lstrip (s : text) : text :=
  match s with
  | c :: s' => if isspace c then lstrip s' else s
  | [] => []
  end.

Definition rstrip (s : text) : text := rev (lstrip (rev s)).

(** [s.strip()] *)
Definition strip (s : text) : text := rstrip (lstrip s).

(** Length of the run of leading white-space characters. *)
Fixpoint leading_whitespace (s : text) : nat :=
  match s with
  | c :: s' => if isspace c then S (leading_whitespace s') else 0
  | [] => 0
  end.

(** Length of the run of leading SPACE characters. *)
Fixpoint leading_spaces (s : text) : nat :=
  match s with
  | c :: s' => if Ascii.eqb c " "%char then S (leading_spaces s') else 0
  | [] => 0
  end.

(** [f.readlines()] on the decoded content of a file: the text is cut
    after every line feed, which stays with its line. *)
Fixpoint readlines (s : text) : list text :=
  match s with
  | [] => []
  | c :: s' =>
      if Ascii.eqb c NL then [c] :: readlines s'
      else match readlines s' with
           | [] => [[c]]
           | l :: ls => (c :: l) :: ls
           end
  end.

(** The shape of what [readlines] returns: every line but the last ends
    with its only line feed, and the last one, when it does not, is not
    empty and has none. *)
Inductive well_cut : list text -> Prop :=
| well_cut_nil : well_cut []
| well_cut_last l : l <> [] -> NL ∉ l -> well_cut [l]
| well_cut_cons l ls : NL ∉ l -> well_cut ls -> well_cut ((l ++ [NL]) :: ls).

(** What [f.writelines(lines)] sends to the file. *)
Definition writelines (lines : list text) : text := concat lines.

(** [s.split('\n')] *)
Fixpoint split_nl (s : text) : list text :=
  match s with
  | [] => [[]]
  | c :: s' =>
      if Ascii.eqb c NL then [] :: split_nl s'
      else match split_nl s' with
           | [] => [[c]]
           | l :: ls => (c :: l) :: ls
           end
  end.

(** ['\n'.join(lines)] *)
Fixpoint join_nl (lines : list text) : text :=
  match lines with
  | [] => []
  | [l] => l
  | l :: ls => l ++ NL :: join_nl ls
  end.

(** [lines.insert(i, x)] for [i >= 0]: past the end it appends. *)
Definition list_insert_at {A} (i : nat) (x : A) (l : list A) : list A :=
  take i l ++ x :: drop i l.

(** [str(n)] for a non-negative integer. *)
Definition str_of_nat (n : nat) : text :=
  str (NilEmpty.string_of_uint (Nat.to_uint n)).

End Text.
Export Text.

(** ** The fragment of [re] the scripts use *)

Module Re.

(** A pattern is a sequence of literals and greedy one-or-more
    repetitions of a character class, which covers [async\s+Task] and
    [await\s+]. *)
Inductive atom :=
| Lit (l : text)
| Plus (cls : ascii -> bool).

Definition regex := list atom.

Fixpoint span (cls : ascii -> bool) (s : text) : nat :=
  match s with
  | c :: s' => if cls c then S (span cls s') else 0
  | [] => 0
  end.

(** Tries [k], [k-1], ..., [1]: the backtracking of a greedy repetition. *)
Fixpoint first_down (k : nat) (f : nat -> option nat) : option nat :=
  match k with
  | 0 => None
  | S k' => match f k with
            | Some n => Some n
            | None => first_down k' f
            end
  end.

(** Length of the match of [r] anchored at the start of [s]. *)
Fixpoint match_here (r : regex) (s : text) : option nat :=
  match r with
  | [] => Some 0
  | Lit l :: r' =>
      if startswith s l
      then (fun n => length l + n) <$> match_here r' (drop (length l) s)
      else None
  | Plus cls :: r' =>
      first_down (span cls s)
        (fun k => (fun n => k + n) <$> match_here r' (drop k s))
  end.

(** [re.finditer]: the spans [(start, length)] of the matches, scanning
    from the left and resuming after each match. [skip] counts the
    characters of the current match still to be passed over. Patterns
    that can match the empty string are outside the fragment: an empty
    match is treated as no match. *)
Fixpoint finditer_from (r : regex) (skip pos : nat) (s : text)
  : list (nat * nat) :=
  match s with
  | [] => []
  | _ :: s' =>
      match skip with
      | S k => finditer_from r k (S pos) s'
      | 0 =>
          match match_here r s with
          | Some (S n) => (pos, S n) :: finditer_from r n (S pos) s'
          | _ => finditer_from r 0 (S pos) s'
          end
      end
  end.

Definition finditer (r : regex) (s : text) : list (nat * nat) :=
  finditer_from r 0 0 s.

(** [re.findall(r, s)] for a pattern without groups: the matched texts. *)
Definition findall (r : regex) (s : text) : list text :=
  (fun '(i, n) => take n (drop i s)) <$> finditer r s.

(** Spans in increasing order, none empty, none starting before [lo] or
    before the end of the one before it. *)
Fixpoint spans_from (lo : nat) (spans : list (nat * nat)) : Prop :=
  match spans with
  | [] => True
  | (i, n) :: rest => lo <= i /\ 0 < n /\ spans_from (i + n) rest
  end.

(** [spans] are the non-overlapping matches of [r] in [s], found from the
    left: they are disjoint and ordered, each is the match of [r] at its
    start, and no match of [r] starts outside all of them. *)
Definition non_overlapping_matches (r : regex) (s : text)
    (spans : list (nat * nat)) : Prop :=
  spans_from 0 spans
  /\ Forall (fun '(i, n) => match_here r (drop i s) = Some n) spans
  /\ forall i n, i < length s -> match_here r (drop i s) = Some (S n) ->
       Exists (fun '(i0, n0) => i0 <= i < i0 + n0) spans.

End Re.

(** ** Files, console and exceptions *)

Module IO.

(** A path names a regular file, given by its content as [read] returns
    it (decoded, line ends already translated to line feeds), or something
    that exists and cannot be opened as a file, such as a directory. *)
Inductive node :=
| File (content : text)
| Dir.

Inductive exn :=
| FileNotFoundError (path : string)
| IsADirectoryError (path : string).

(** [str(e)]; the path is shown between plain quotes, which is what
    [repr] gives for a path without quotes, backslashes or control
    characters. *)
Definition str_exn (e : exn) : text :=
  match e with
  | FileNotFoundError p =>
      str "[Errno 2] No such file or directory: '" ++ str p ++ str "'"
  | IsADirectoryError p =>
      str "[Errno 21] Is a directory: '" ++ str p ++ str "'"
  end.

(** The world a script runs in: the files, the trace of the write calls
    made so far (oldest first) and the lines printed so far. *)
Record world := World {
  fs : gmap string node;
  writes : list (string * text);
  stdout : list text
}.

Definition M (A : Type) : Type := world -> world * (exn + A).

Definition ret {A} (a : A) : M A := fun w => (w, inr a).

Definition raise {A} (e : exn) : M A := fun w => (w, inl e).

Definition bind {A B} (m : M A) (k : A -> M B) : M B :=
  fun w =>
    match m w with
    | (w', inr a) => k a w'
    | (w', inl e) => (w', inl e)
    end.

(** [try: m  except Exception as e: h(e)] *)
Definition try_except {A} (m : M A) (h : exn -> M A) : M A :=
  fun w =>
    match m w with
    | (w', inl e) => h e w'
    | r => r
    end.

(** [with open(path, 'r', encoding='utf-8') as f: f.read()] *)
Definition read_file (path : string) : M text :=
  fun w =>
    match fs w !! path with
    | Some (File c) => (w, inr c)
    | Some Dir => (w, inl (IsADirectoryError path))
    | None => (w, inl (FileNotFoundError path))
    end.

(** [with open(path, 'w', encoding='utf-8') as f: f.write(content)] *)
Definition write_file (path : string) (content : text) : M unit :=
  fun w =>
    match fs w !! path with
    | Some Dir => (w, inl (IsADirectoryError path))
    | _ => (World (<[path := File content]> (fs w))
                  (writes w ++ [(path, content)])
                  (stdout w), inr tt)
    end.

(** [print(line)] *)
Definition print (line : text) : M unit :=
  fun w => (World (fs w) (writes w) (stdout w ++ [line]), inr tt).

(** [os.path.exists(path)] *)
Definition path_exists (path : string) : M bool :=
  fun w => (w, inr (bool_decide (is_Some (fs w !! path)))).

Definition run {A} (m : M A) (w : world) : world := fst (m w).
Definition result {A} (m : M A) (w : world) : exn + A := snd (m w).

(** The decoded content of a regular file, if [path] names one. *)
Definition file_text (w : world) (path : string) : option text :=
  match fs w !! path with
  | Some (File c) => Some c
  | _ => None
  end.

(** Whether some write call was made on [path]. *)
Definition written (w : world) (path : string) : bool :=
  bool_decide (path ∈ (fst <$> writes w)).

(** The world after [lines] have been printed, one call each. *)
Definition say (w : world) (lines : list text) : world :=
  World (fs w) (writes w) (stdout w ++ lines).

End IO.

Declare Scope py_scope.
Delimit Scope py_scope with py.
Notation "'let*' x ':=' m 'in' k" := (IO.bind m (fun x => k))
  (at level 10, x name, m at level 100, k at level 200) : py_scope.
Notation "m ';;;' k" := (IO.bind m (fun _ => k))
  (at level 100, k at level 200, right associativity) : py_scope.

(** ** The region re-indenting scripts

    [fix_simpleautoml_indentation.py] and
    [fix_interpretable_region_indentation.py] share one loop over the lines
    of a file. *)

Module Reindent.
Import IO.
Local Open Scope py_scope.

Definition start_marker : text :=
  Eval cbv in str "#region IInterpretableModel Implementation".
Definition end_marker : text := Eval cbv in str "#endregion".

(** The indentation quantum (four spaces) and two of them. *)
Definition quantum : text := Eval cbv in str "    ".
Definition two_quanta : text := Eval cbv in str "        ".

(** One turn of [for line in lines]: the value of [in_region] after the
    turn and the line appended to [fixed_lines]. *)
Definition step (in_region : bool) (line : text) : bool * text :=
  if contains start_marker line then (true, line)
  else if contains end_marker line && in_region then (false, line)
  else if in_region then
    if startswith line quantum && negb (startswith line two_quanta)
    then (in_region, quantum ++ line)
    else (in_region, line)
  else (in_region, line).

Fixpoint fix_loop (in_region : bool) (lines : list text) : list text :=
  match lines with
  | [] => []
  | line :: rest =>
      let '(in_region', out) := step in_region line in
      out :: fix_loop in_region' rest
  end.

(** The value of [in_region] when the loop reaches line [i]. *)
Fixpoint in_region_at (in_region : bool) (lines : list text) (i : nat)
  : bool :=
  match i, lines with
  | S j, line :: rest => in_region_at (fst (step in_region line)) rest j
  | _, _ => in_region
  end.

(** The whole pass on the content of a file: read the lines, run the loop
    from [in_region = False], write the lines. *)
Definition reindent (content : text) : text :=
  writelines (fix_loop false (readlines content)).

(** The Marker Scanner's flag of a line (spec 4.1): the line of the start
    marker and the line of the end marker are both flagged. *)
Definition flagged (in_region : bool) (line : text) : bool :=
  contains start_marker line || in_region.

(** A line strictly inside a region: reached with [in_region] set and
    carrying neither marker. *)
Definition strictly_inside (in_region : bool) (line : text) : bool :=
  in_region && negb (contains start_marker line)
  && negb (contains end_marker line).

(** A line outside any region: reached with [in_region] unset and not
    opening a region. *)
Definition outside (in_region : bool) (line : text) : bool :=
  negb in_region && negb (contains start_marker line).

(** [fix_simpleautoml_indentation.py] *)
Definition simpleautoml_file_path : string :=
  "/mnt/c/projects/AiDotNet/src/AutoML/SimpleAutoMLModel.cs".

Definition fix_simpleautoml_indentation : M unit :=
  let file_path := simpleautoml_file_path in
  let* content := read_file file_path in
  let lines := readlines content in
  let fixed_lines := fix_loop false lines in
  write_file file_path (writelines fixed_lines) ;;;
  print (str "Fixed indentation in SimpleAutoMLModel.cs").

(** [fix_interpretable_region_indentation.py] *)
Definition files_to_fix : list string := [
  "/mnt/c/projects/AiDotNet/src/MultimodalAI/MultimodalModelBase.cs";
  "/mnt/c/projects/AiDotNet/src/Models/ParameterPlaceholderModel.cs";
  "/mnt/c/projects/AiDotNet/src/Models/VectorModel.cs";
  "/mnt/c/projects/AiDotNet/src/Reasoning/ReasoningModelBase.cs";
  "/mnt/c/projects/AiDotNet/src/NeuralNetworks/TokenizerAdapter.cs";
  "/mnt/c/projects/AiDotNet/src/ReinforcementLearning/Models/ReinforcementLearningModelBase.cs"
]%string.

(** The body of the [try] block for one path. *)
Definition fix_one (file_path : string) : M unit :=
  let* content := read_file file_path in
  let lines := readlines content in
  let fixed_lines := fix_loop false lines in
  write_file file_path (writelines fixed_lines) ;;;
  print (str "Fixed indentation in " ++ str file_path).

(** The [try]/[except] statement for one path. *)
Definition attempt (file_path : string) : M unit :=
  try_except (fix_one file_path)
    (fun e => print (str "Error fixing " ++ str file_path
                       ++ str ": " ++ str_exn e)).

(** The [for file_path in files_to_fix] loop. *)
Fixpoint fix_all (files : list string) : M unit :=
  match files with
  | [] => ret tt
  | file_path :: rest => attempt file_path ;;; fix_all rest
  end.

Definition fix_interpretable_region_indentation : M unit :=
  fix_all files_to_fix.

(** The line the loop prints for one path of the list. *)
Definition file_line (w : world) (file_path : string) : text :=
  match fs w !! file_path with
  | Some (File _) => str "Fixed indentation in " ++ str file_path
  | Some Dir =>
      str "Error fixing " ++ str file_path ++ str ": "
        ++ str_exn (IsADirectoryError file_path)
  | None =>
      str "Error fixing " ++ str file_path ++ str ": "
        ++ str_exn (FileNotFoundError file_path)
  end.

(** The node at [q] once the regular files among [files] have been
    re-indented. *)
Definition reindented (files : list string) (q : string)
    (n : option node) : option node :=
  match n with
  | Some (File c) =>
      Some (File (if decide (q ∈ files) then reindent c else c))
  | other => other
  end.

End Reindent.

(** ** [fix_remaining_cs0535.py] *)

Module Cs0535.
Import IO.
Local Open Scope py_scope.

Definition using_line : text :=
  Eval cbv in str "using AiDotNet.Interpretability;".

(** The test of the [enumerate] loop:
    [line.strip().startswith("using ") and ";" in line]. *)
Definition is_using (line : text) : bool :=
  startswith (strip line) (str "using ") && contains (str ";") line.

(** [for i, line in enumerate(lines)], from index [i] on. *)
Fixpoint find_last_using (i : nat) (lines : list text) (last_using_idx : Z)
  : Z :=
  match lines with
  | [] => last_using_idx
  | line :: rest =>
      find_last_using (S i) rest
        (if is_using line then Z.of_nat i else last_using_idx)
  end.

(** The content [check_and_add_using] writes, when it writes. *)
Definition add_using (content : text) : option text :=
  if negb (contains using_line content) then
    let lines := split_nl content in
    let last_using_idx := find_last_using 0 lines (-1) in
    if (0 <=? last_using_idx)%Z then
      let lines :=
        list_insert_at (Z.to_nat (last_using_idx + 1)) using_line lines in
      Some (join_nl lines)
    else None
  else None.

Definition check_and_add_using (file_path : string) : M bool :=
  let* content := read_file file_path in
  match add_using content with
  | Some content =>
      write_file file_path content ;;;
      print (str "Added using statement to " ++ str file_path) ;;;
      ret true
  | None => ret false
  end.

(** The text after a call, on the text before it. *)
Definition injected (content : text) : text :=
  default content (add_using content).

(** The anchor test in the words of the specification: after stripping
    the leading white space the line starts with ["using "], and the line
    contains [";"]. *)
Definition is_anchor (line : text) : bool :=
  startswith (lstrip line) (str "using ") && contains (str ";") line.

(** Whether some line of the document passes the test of the loop. *)
Definition has_using (content : text) : bool :=
  existsb is_using (split_nl content).

(** Whether the document has an anchor line, in the specification's
    words. *)
Definition has_anchor (content : text) : bool :=
  existsb is_anchor (split_nl content).

(** [check_implementation] *)
Definition check_implementation (file_path : string) : M bool :=
  let* content := read_file file_path in
  ret (contains Reindent.start_marker content).

(** [os.path.join(a, b)] with the POSIX separator. *)
Definition path_join (a b : string) : string :=
  if String.prefix "/" b then b
  else if String.eqb a "" || bool_decide (last (list_ascii_of_string a) = Some "/"%char)
  then (a ++ b)%string
  else (a ++ "/" ++ b)%string.

Definition project_root : string := "/mnt/c/projects/AiDotNet".

(** The tuples of [files_to_check]: the relative path, then the names
    the loop does not look at. *)
Definition files_to_check : list (string * list string) := [
  ("src/AutoML/SimpleAutoMLModel.cs", ["IAutoMLModel"]);
  ("src/MultimodalAI/MultimodalModelBase.cs",
   ["MultimodalInput<T>"; "Dictionary<string, object>"]);
  ("src/Reasoning/ReasoningModelBase.cs",
   ["IReasoningModel"; "Tensor<T>"; "Tensor<T>"]);
  ("src/Models/ParameterPlaceholderModel.cs", ["T"; "TInput"; "TOutput"]);
  ("src/ReinforcementLearning/Agents/DQNAgent.cs", ["QNetwork"]);
  ("src/Models/VectorModel.cs", ["VectorModel"; "Matrix<T>"]);
  ("src/NeuralNetworks/TokenizerAdapter.cs",
   ["TokenizerAdapter"; "string"; "string"]);
  ("src/ReinforcementLearning/Models/ReinforcementLearningModelBase.cs",
   ["ReinforcementLearningModelBase"; "Tensor<T>"; "Tensor<T>"])
]%string.

(** [str(b)] for a Boolean, as an f-string shows it. *)
Definition str_of_bool (b : bool) : text :=
  if b then str "True" else str "False".

(** The body of [for file_info in files_to_check], on the joined path. *)
Definition check_path (file_path : string) : M unit :=
  let* found := path_exists file_path in
  if found then
    print (NL :: str "Checking " ++ str file_path) ;;;
    let* using_added := check_and_add_using file_path in
    let* has_impl := check_implementation file_path in
    print (str "  Has IInterpretableModel implementation: "
             ++ str_of_bool has_impl) ;;;
    if negb has_impl
    then print (str "  WARNING: Missing implementation!")
    else ret tt
  else print (str "File not found: " ++ str file_path).

Fixpoint check_all (files : list (string * list string)) : M unit :=
  match files with
  | [] => ret tt
  | file_info :: rest =>
      check_path (path_join project_root (fst file_info)) ;;;
      check_all rest
  end.

(** The script, on the list it walks. *)
Definition main_on (files : list (string * list string)) : M unit :=
  check_all files ;;;
  print (NL :: str "Done!").

Definition main : M unit := main_on files_to_check.

(** The paths the loop visits. *)
Definition visited (files : list (string * list string)) : list string :=
  (fun file_info => path_join project_root (fst file_info)) <$> files.

(** What one turn of the loop prints for a regular file of the given
    content. *)
Definition check_report (file_path : string) (content : text)
  : list text :=
  [NL :: str "Checking " ++ str file_path]
  ++ (if negb (contains using_line content) && has_using content
      then [str "Added using statement to " ++ str file_path] else [])
  ++ [str "  Has IInterpretableModel implementation: "
        ++ str_of_bool (contains Reindent.start_marker content)]
  ++ (if contains Reindent.start_marker content then []
      else [str "  WARNING: Missing implementation!"]).

(** The node at [q] once the regular files among [files] have been
    through [check_and_add_using]. *)
Definition with_using (files : list string) (q : string)
    (n : option node) : option node :=
  match n with
  | Some (File c) =>
      Some (File (if decide (q ∈ files) then injected c else c))
  | other => other
  end.

End Cs0535.

(** ** [fix_async_errors.py] *)

Module AsyncErrors.
Import IO Re.
Local Open Scope py_scope.

(** [r'async\s+Task'] *)
Definition async_pattern : regex :=
  [Lit (str "async"); Plus isspace; Lit (str "Task")].

(** [r'await\s+'] *)
Definition await_pattern : regex :=
  [Lit (str "await"); Plus isspace].

Definition async_count (content : text) : nat :=
  length (findall async_pattern content).

Definition await_count (content : text) : nat :=
  length (findall await_pattern content).

(** The line printed for a positive deficit. *)
Definition found_line (file_path : string) (deficit : nat) : text :=
  str "Found " ++ str_of_nat deficit
    ++ str " async methods without await in " ++ str file_path.

(** What the deficit check prints for a file of the given content. *)
Definition deficit_report (file_path : string) (content : text)
  : list text :=
  if await_count content <? async_count content
  then [found_line file_path (async_count content - await_count content)]
  else [].

(** [pattern1], [replace1] and [pattern2] are assigned and never used;
    they are left out. *)
Definition fix_async_method_without_await (file_path : string)
  : M (bool * text) :=
  let* content := read_file file_path in
  let original_content := content in
  (if await_count content <? async_count content
   then print (found_line file_path
                 (async_count content - await_count content))
   else ret tt) ;;;
  ret (negb (bool_decide (content = original_content)), content).

Definition process_file (file_path : string) : M bool :=
  let* found := path_exists file_path in
  if negb found then
    print (str "File not found: " ++ str file_path) ;;;
    ret false
  else
    let* r := fix_async_method_without_await file_path in
    let '(changed, content) := r in
    if changed then
      write_file file_path content ;;;
      print (str "Fixed: " ++ str file_path) ;;;
      ret true
    else ret false.

Definition files_to_fix : list string := [
  "/mnt/c/projects/AiDotNet/src/ProductionMonitoring/AlertManager.cs";
  "/mnt/c/projects/AiDotNet/src/ProductionMonitoring/ConceptDriftDetector.cs";
  "/mnt/c/projects/AiDotNet/src/ProductionMonitoring/ModelHealthScorer.cs";
  "/mnt/c/projects/AiDotNet/src/ProductionMonitoring/PerformanceMonitor.cs";
  "/mnt/c/projects/AiDotNet/src/ProductionMonitoring/RetrainingRecommender.cs";
  "/mnt/c/projects/AiDotNet/src/Pipeline/DataLoadingStep.cs";
  "/mnt/c/projects/AiDotNet/src/Pipeline/MLPipelineExample.cs";
  "/mnt/c/projects/AiDotNet/src/Pipeline/PipelineOrchestrator.cs";
  "/mnt/c/projects/AiDotNet/src/FoundationModels/Providers/ONNXModelProvider.cs"
]%string.

(** [for file_path in files_to_fix], carrying [fixed_count]. *)
Fixpoint count_fixed (files : list string) (fixed_count : nat) : M nat :=
  match files with
  | [] => ret fixed_count
  | file_path :: rest =>
      let* fixed := process_file file_path in
      count_fixed rest (if fixed then fixed_count + 1 else fixed_count)
  end.

(** [main], on the list of files it walks. *)
Definition main_on (files : list string) : M unit :=
  let* fixed_count := count_fixed files 0 in
  print (NL :: str "Fixed " ++ str_of_nat fixed_count ++ str " files").

Definition main : M unit := main_on files_to_fix.

(** What [process_file] prints for one path of the list. *)
Definition file_report (w : world) (file_path : string) : list text :=
  match fs w !! file_path with
  | None => [str "File not found: " ++ str file_path]
  | Some (File content) => deficit_report file_path content
  | Some Dir => []
  end.

End AsyncErrors.

(** * Properties *)

Import IO.

(** ** Text primitives *)

Section TextFacts.

Implicit Types (s p l : text) (c : ascii).

Lemma eqb_NL c : Ascii.eqb c NL = bool_decide (c = NL).
Proof.
  destruct (Ascii.eqb_spec c NL) as [->|Hne].
  - by rewrite bool_decide_eq_true_2.
  - by rewrite bool_decide_eq_false_2.
Qed.

Lemma startswith_app s p : startswith (p ++ s) p = true.
Proof. induction p as [|c p IH]; simpl; [done|]. by rewrite Ascii.eqb_refl. Qed.

Lemma startswith_spaces s n :
  startswith s (repeat " "%char n) = (n <=? leading_spaces s).
Proof.
  revert s. induction n as [|n IH]; intros [|c s];
    cbn [startswith repeat leading_spaces]; try done.
  rewrite (Ascii.eqb_sym " " c).
  destruct (Ascii.eqb c " "); [apply IH|done].
Qed.

Lemma not_NL_cons c l : c <> NL -> NL ∉ l -> NL ∉ c :: l.
Proof. intros Hc Hl. apply not_elem_of_cons. split; [congruence|done]. Qed.

Lemma readlines_line l rest :
  NL ∉ l -> readlines (l ++ NL :: rest) = (l ++ [NL]) :: readlines rest.
Proof.
  induction l as [|c l IH]; intros Hnl; simpl.
  - done.
  - apply not_elem_of_cons in Hnl as [Hc Hl].
    rewrite eqb_NL, bool_decide_eq_false_2 by done.
    by rewrite IH.
Qed.

Lemma readlines_last l : l <> [] -> NL ∉ l -> readlines l = [l].
Proof.
  induction l as [|c l IH]; intros Hne Hnl; [done|].
  apply not_elem_of_cons in Hnl as [Hc Hl]. simpl.
  rewrite eqb_NL, bool_decide_eq_false_2 by done.
  destruct l as [|d l]; [done|]. by rewrite IH.
Qed.

Lemma readlines_well_cut s : well_cut (readlines s).
Proof.
  induction s as [|c s IH]; simpl; [constructor|].
  rewrite eqb_NL. case_bool_decide as Hc.
  - subst c. apply (well_cut_cons []); [apply not_elem_of_nil|done].
  - destruct (readlines s) as [|l ls].
    + apply well_cut_last; [done|]. apply not_NL_cons; [done|apply not_elem_of_nil].
    + inversion IH as [|l' Hne Hnl|l' ls' Hnl Hls]; subst.
      * apply well_cut_last; [done|]. by apply not_NL_cons.
      * apply (well_cut_cons (c :: l')); [|done]. by apply not_NL_cons.
Qed.

(** Reading back what [writelines] wrote gives the same lines. *)
Lemma readlines_writelines (ls : list text) :
  well_cut ls -> readlines (writelines ls) = ls.
Proof.
  unfold writelines. induction 1 as [|l Hne Hnl|l ls Hnl Hls IH]; simpl.
  - done.
  - rewrite app_nil_r. by apply readlines_last.
  - rewrite <- app_assoc. simpl. by rewrite readlines_line, IH.
Qed.

End TextFacts.

(** ** The region re-indenter *)

Section ReindentFacts.

Import Reindent.
Implicit Types (line content : text) (lines : list text) (in_region : bool).

#[local] Arguments step : simpl never.

Lemma quantum_spaces : quantum = repeat " "%char 4.
Proof. reflexivity. Qed.

Lemma two_quanta_spaces : two_quanta = repeat " "%char 8.
Proof. reflexivity. Qed.

(** Four more spaces in front of a line neither create nor hide a marker. *)
Lemma contains_start_quantum line :
  contains start_marker (quantum ++ line) = contains start_marker line.
Proof. reflexivity. Qed.

Lemma contains_end_quantum line :
  contains end_marker (quantum ++ line) = contains end_marker line.
Proof. reflexivity. Qed.

Lemma startswith_two_quanta_quantum line :
  startswith (quantum ++ line) two_quanta = startswith line quantum.
Proof. reflexivity. Qed.

(** The loop body emits the line or the line with one more quantum. *)
Lemma step_out in_region line :
  snd (step in_region line) = line \/
  snd (step in_region line) = quantum ++ line.
Proof.
  unfold step.
  repeat match goal with
         | |- context [if ?b then _ else _] => destruct b
         end; simpl; auto.
Qed.

(** On its own output the loop body takes the same branch and changes
    nothing. *)
Lemma step_fixed in_region line :
  step in_region (snd (step in_region line)) = step in_region line.
Proof.
  unfold step.
  destruct (contains start_marker line) eqn:Hs; [cbn [snd]; by rewrite Hs|].
  destruct (contains end_marker line && in_region) eqn:He;
    [cbn [snd]; by rewrite Hs, He|].
  destruct in_region; [|cbn [snd]; by rewrite Hs, He].
  destruct (startswith line quantum && negb (startswith line two_quanta))
    eqn:Hq; cbn [snd]; [|by rewrite Hs, He, Hq].
  rewrite contains_start_quantum, contains_end_quantum, Hs, He.
  rewrite startswith_two_quanta_quantum.
  apply andb_prop in Hq as [-> _]. by rewrite andb_false_r.
Qed.

Lemma fix_loop_fixed in_region lines :
  fix_loop in_region (fix_loop in_region lines) = fix_loop in_region lines.
Proof.
  revert in_region. induction lines as [|line rest IH]; intros b; [done|].
  simpl. pose proof (step_fixed b line) as Hfix.
  destruct (step b line) as [b' out]. simpl in *.
  by rewrite Hfix, IH.
Qed.

Lemma fix_loop_lookup in_region lines i :
  fix_loop in_region lines !! i
  = (fun line => snd (step (in_region_at in_region lines i) line))
      <$> lines !! i.
Proof.
  revert in_region i. induction lines as [|line rest IH]; intros b i.
  - by destruct i.
  - simpl. destruct (step b line) as [b' out] eqn:Hst. destruct i as [|i].
    + simpl. by rewrite Hst.
    + simpl. apply IH.
Qed.

Lemma not_in_quantum_app l : NL ∉ l -> NL ∉ quantum ++ l.
Proof.
  intros Hnl. unfold quantum. cbn [app].
  repeat (apply not_NL_cons; [discriminate|]). done.
Qed.

Lemma fix_loop_well_cut in_region lines :
  well_cut lines -> well_cut (fix_loop in_region lines).
Proof.
  intros Hwc. revert in_region.
  induction Hwc as [|l Hne Hnl|l ls Hnl Hls IH]; intros b; simpl.
  - constructor.
  - pose proof (step_out b l) as Hout.
    destruct (step b l) as [b' out]. simpl in Hout.
    destruct Hout as [->| ->]; apply well_cut_last;
      auto using not_in_quantum_app.
    by apply (not_in_quantum_app l).
  - pose proof (step_out b (l ++ [NL])) as Hout.
    destruct (step b (l ++ [NL])) as [b' out]. simpl in Hout.
    destruct Hout as [->| ->].
    + by apply well_cut_cons.
    + apply (well_cut_cons (quantum ++ l)); auto using not_in_quantum_app.
Qed.

(** The lines of the re-indented text are the lines the loop produced. *)
Lemma readlines_reindent content :
  readlines (reindent content) = fix_loop false (readlines content).
Proof.
  unfold reindent. apply readlines_writelines, fix_loop_well_cut,
    readlines_well_cut.
Qed.

(** C1. The region re-indenter is idempotent: on every document text, the
    full pass (marker scan and indentation rule) applied twice gives
    exactly the text it gives applied once. *)
Theorem reindent_idempotent content :
  reindent (reindent content) = reindent content.
Proof.
  unfold reindent at 1 3. by rewrite readlines_reindent, fix_loop_fixed.
Qed.

(** The code's test, read on the run of leading spaces. *)
Lemma rule_leading_spaces line :
  startswith line quantum && negb (startswith line two_quanta)
  = (4 <=? leading_spaces line) && (leading_spaces line <? 8).
Proof.
  rewrite quantum_spaces, two_quanta_spaces, !startswith_spaces.
  f_equal. destruct (Nat.leb_spec 8 (leading_spaces line));
    destruct (Nat.ltb_spec (leading_spaces line) 8); simpl; lia || done.
Qed.

Lemma step_strictly_inside in_region line :
  strictly_inside in_region line = true ->
  snd (step in_region line)
  = if startswith line quantum && negb (startswith line two_quanta)
    then quantum ++ line else line.
Proof.
  unfold strictly_inside, step.
  intros [[-> Hs%negb_true_iff]%andb_prop He%negb_true_iff]%andb_prop.
  rewrite Hs, He. cbn [andb].
  by destruct (startswith line quantum && negb (startswith line two_quanta)).
Qed.

Lemma step_not_strictly_inside in_region line :
  strictly_inside in_region line = false -> snd (step in_region line) = line.
Proof.
  unfold strictly_inside, step. intros Hin.
  destruct (contains start_marker line); [done|].
  destruct (contains end_marker line), in_region; done.
Qed.

(** The line of the output at the place of line [i] of the input. *)
Lemma reindent_lookup content i :
  readlines (reindent content) !! i
  = (fun line =>
       snd (step (in_region_at false (readlines content) i) line))
      <$> readlines content !! i.
Proof. by rewrite readlines_reindent, fix_loop_lookup. Qed.

(** C5, as the code has it. For every line strictly inside a region
    (reached with [in_region] set and carrying neither marker) the
    re-indenter prepends exactly one quantum of four spaces if and only if
    the line starts with four spaces and does not start with eight, that
    is when its run of leading spaces is 4 to 7 long; every other such
    line is left unchanged. *)
Theorem reindent_rule content i line :
  readlines content !! i = Some line ->
  strictly_inside (in_region_at false (readlines content) i) line = true ->
  readlines (reindent content) !! i
  = Some (if startswith line quantum && negb (startswith line two_quanta)
          then quantum ++ line else line)
  /\ (startswith line quantum && negb (startswith line two_quanta) = true
      <-> 4 <= leading_spaces line < 8).
Proof.
  intros Hline Hin. split.
  - rewrite reindent_lookup, Hline. simpl. f_equal.
    by apply step_strictly_inside.
  - rewrite rule_leading_spaces, andb_true_iff, Nat.leb_le, Nat.ltb_lt. lia.
Qed.

Lemma reindent_rule_witness :
  readlines (reindent (str "#region IInterpretableModel Implementation
    oldLine();
")) !! 1
  = Some (str "        oldLine();
")
  /\ (true = true <-> 4 <= 4 < 8).
Proof.
  apply (reindent_rule
           (str "#region IInterpretableModel Implementation
    oldLine();
") 1 (str "    oldLine();
")); reflexivity.
Defined.

(** C5 as stated fails: a line flagged in-region whose leading white-space
    run is five characters long, not exactly four, still gets a quantum
    prepended. *)
Lemma reindent_rule_five_spaces :
  let lines := readlines (str "#region IInterpretableModel Implementation
     x
") in
  let line := str "     x
" in
  lines !! 1 = Some line
  /\ flagged (in_region_at false lines 1) line = true
  /\ leading_whitespace line = 5
  /\ fix_loop false lines !! 1 = Some (quantum ++ line).
Proof. repeat split. Qed.

(** C6. A line outside any marked region is byte-identical in the output
    of the re-indenter, its trailing line feed included. *)
Theorem outside_region_verbatim content i line :
  readlines content !! i = Some line ->
  outside (in_region_at false (readlines content) i) line = true ->
  readlines (reindent content) !! i = Some line.
Proof.
  intros Hline Hout. rewrite reindent_lookup, Hline. simpl. f_equal.
  apply step_not_strictly_inside. unfold outside in Hout.
  unfold strictly_inside.
  by destruct (in_region_at false (readlines content) i).
Qed.

Lemma outside_region_verbatim_witness :
  readlines (reindent (str "#region IInterpretableModel Implementation
    a
#endregion
    b
")) !! 3 = Some (str "    b
").
Proof.
  apply (outside_region_verbatim
           (str "#region IInterpretableModel Implementation
    a
#endregion
    b
") 3 (str "    b
")); reflexivity.
Defined.

(** C9. A line carrying the start marker or the end marker is emitted
    verbatim, whatever its own indentation, and any line the re-indenter
    changes lies strictly between the markers. *)
Theorem marker_lines_verbatim content i line :
  readlines content !! i = Some line ->
  (contains start_marker line = true \/ contains end_marker line = true ->
   readlines (reindent content) !! i = Some line)
  /\ (readlines (reindent content) !! i <> Some line ->
      strictly_inside (in_region_at false (readlines content) i) line
      = true).
Proof.
  intros Hline. rewrite reindent_lookup, Hline. simpl. split.
  - intros Hmark. f_equal. apply step_not_strictly_inside.
    unfold strictly_inside.
    destruct Hmark as [-> | ->]; by rewrite ?andb_false_r.
  - intros Hne.
    destruct (strictly_inside (in_region_at false (readlines content) i) line)
      eqn:Hin; [done|].
    by rewrite step_not_strictly_inside in Hne.
Qed.

Lemma marker_lines_verbatim_witness :
  let content := str "    #region IInterpretableModel Implementation
    a
    #endregion
" in
  (contains start_marker (str "    #endregion
") = true \/
   contains end_marker (str "    #endregion
") = true ->
   readlines (reindent content) !! 2 = Some (str "    #endregion
"))
  /\ (readlines (reindent content) !! 2 <> Some (str "    #endregion
") ->
      strictly_inside (in_region_at false (readlines content) 2)
        (str "    #endregion
") = true).
Proof.
  apply (marker_lines_verbatim
           (str "    #region IInterpretableModel Implementation
    a
    #endregion
") 2 (str "    #endregion
")). reflexivity.
Defined.

End ReindentFacts.

(** ** Files and console *)

Section WorldFacts.

Implicit Types (w : world) (path : string) (content : text).

Lemma file_text_Some w path content :
  file_text w path = Some content <-> fs w !! path = Some (File content).
Proof.
  unfold file_text. destruct (fs w !! path) as [[c|]|]; split; congruence.
Qed.

Lemma say_nil w : say w [] = w.
Proof. destruct w. unfold say. simpl. by rewrite app_nil_r. Qed.

Lemma say_say w a b : say (say w a) b = say w (a ++ b).
Proof. unfold say. simpl. by rewrite app_assoc. Qed.

End WorldFacts.

(** ** Scanning for matches *)

Section ReFacts.

Import Re.
Implicit Types (r : regex) (s full : text) (spans : list (nat * nat)).

Lemma spans_from_le lo lo' spans :
  lo' <= lo -> spans_from lo spans -> spans_from lo' spans.
Proof. destruct spans as [|[i n] rest]; simpl; [done|]. intuition lia. Qed.

Lemma drop_step full pos (c : ascii) s :
  drop pos full = c :: s -> drop (S pos) full = s.
Proof.
  intros Hd. replace (S pos) with (pos + 1) by lia.
  by rewrite <- drop_drop, Hd.
Qed.

Lemma finditer_from_spans r skip pos s :
  spans_from (pos + skip) (finditer_from r skip pos s).
Proof.
  revert skip pos. induction s as [|c s IH]; intros skip pos; [done|].
  cbn [finditer_from]. destruct skip as [|k].
  - destruct (match_here r (c :: s)) as [[|n]|].
    + eapply spans_from_le, IH. lia.
    + cbn [spans_from]. split; [lia|]. split; [lia|].
      eapply spans_from_le, IH. lia.
    + eapply spans_from_le, IH. lia.
  - eapply spans_from_le, IH. lia.
Qed.

Lemma finditer_from_match r full skip pos s :
  drop pos full = s ->
  Forall (fun '(i, n) => match_here r (drop i full) = Some n)
    (finditer_from r skip pos s).
Proof.
  revert skip pos. induction s as [|c s IH]; intros skip pos Hd;
    [constructor|].
  cbn [finditer_from]. pose proof (drop_step _ _ _ _ Hd) as Hd'.
  destruct skip as [|k]; [|by apply IH].
  destruct (match_here r (c :: s)) as [[|n]|] eqn:Hm; try by apply IH.
  constructor; [by rewrite Hd|by apply IH].
Qed.

Lemma finditer_from_covers r full skip pos s i n :
  drop pos full = s ->
  pos + skip <= i < pos + length s ->
  match_here r (drop i full) = Some (S n) ->
  Exists (fun '(i0, n0) => i0 <= i < i0 + n0) (finditer_from r skip pos s).
Proof.
  revert skip pos. induction s as [|c s IH]; intros skip pos Hd Hi Hm;
    [simpl in Hi; lia|].
  cbn [finditer_from]. pose proof (drop_step _ _ _ _ Hd) as Hd'.
  cbn [length] in Hi.
  destruct skip as [|k]; [|apply IH; [done|lia|done]].
  destruct (decide (i = pos)) as [->|Hne].
  - rewrite Hd in Hm. rewrite Hm. apply Exists_cons_hd. lia.
  - destruct (match_here r (c :: s)) as [[|n0]|] eqn:Hm0;
      try (apply IH; [done|lia|done]).
    destruct (decide (i < pos + S n0)) as [Hlt|Hge].
    + apply Exists_cons_hd. lia.
    + apply Exists_cons_tl, IH; [done|lia|done].
Qed.

(** [finditer] returns the non-overlapping matches, found from the left. *)
Lemma finditer_non_overlapping r s :
  non_overlapping_matches r s (finditer r s).
Proof.
  unfold non_overlapping_matches, finditer. split; [|split].
  - apply (finditer_from_spans r 0 0 s).
  - by apply finditer_from_match.
  - intros i n Hi Hm. eapply finditer_from_covers; [done|lia|done].
Qed.

Lemma length_findall r s : length (findall r s) = length (finditer r s).
Proof. unfold findall. apply length_fmap. Qed.

End ReFacts.

(** ** The async/await counter *)

Section AsyncFacts.

Import AsyncErrors.
Implicit Types (w : world) (file_path : string) (content : text).

Lemma fix_async_file w file_path content :
  fs w !! file_path = Some (File content) ->
  fix_async_method_without_await file_path w
  = (say w (deficit_report file_path content), inr (false, content)).
Proof.
  intros Hf. unfold fix_async_method_without_await, bind, read_file.
  rewrite Hf. unfold deficit_report.
  rewrite bool_decide_eq_true_2 by done.
  destruct (await_count content <? async_count content); simpl.
  - done.
  - by rewrite say_nil.
Qed.

Lemma process_file_missing w file_path :
  fs w !! file_path = None ->
  process_file file_path w
  = (say w [str "File not found: " ++ str file_path], inr false).
Proof.
  intros Hf. unfold process_file, bind, path_exists. rewrite Hf.
  rewrite bool_decide_eq_false_2 by (by intros [? ?]). done.
Qed.

Lemma process_file_file w file_path content :
  fs w !! file_path = Some (File content) ->
  process_file file_path w
  = (say w (deficit_report file_path content), inr false).
Proof.
  intros Hf. unfold process_file, bind at 1, path_exists. rewrite Hf.
  rewrite bool_decide_eq_true_2 by eauto. cbn [negb].
  unfold bind. by rewrite (fix_async_file _ _ _ Hf).
Qed.

Lemma process_file_dir w file_path :
  fs w !! file_path = Some Dir ->
  process_file file_path w = (w, inl (IsADirectoryError file_path)).
Proof.
  intros Hf. unfold process_file, bind at 1, path_exists. rewrite Hf.
  rewrite bool_decide_eq_true_2 by eauto. cbn [negb].
  unfold bind, fix_async_method_without_await, bind, read_file.
  by rewrite Hf.
Qed.

(** Apart from a directory, a path makes [process_file] print its report
    and return [False]. *)
Lemma process_file_report w file_path :
  fs w !! file_path <> Some Dir ->
  process_file file_path w = (say w (file_report w file_path), inr false).
Proof.
  intros Hnd. unfold file_report.
  destruct (fs w !! file_path) as [[c|]|] eqn:Hf.
  - by apply process_file_file.
  - done.
  - by apply process_file_missing.
Qed.

Lemma count_fixed_report files w n :
  (forall p, p ∈ files -> fs w !! p <> Some Dir) ->
  count_fixed files n w
  = (say w (concat (file_report w <$> files)), inr n).
Proof.
  revert w n. induction files as [|p rest IH]; intros w n Hnd.
  - simpl. by rewrite say_nil.
  - cbn [count_fixed]. unfold bind.
    rewrite process_file_report by (apply Hnd; left).
    rewrite IH by (intros q Hq; apply Hnd; by right).
    by rewrite say_say.
Qed.

(** C2. [fix_async_method_without_await] only detects: on every file it
    prints the deficit when it is positive and rewrites nothing; the text
    it returns is the content of the file, the changed flag is [False],
    and neither the files nor the trace of writes move. *)
Theorem detect_only w file_path content :
  file_text w file_path = Some content ->
  let w' := run (fix_async_method_without_await file_path) w in
  result (fix_async_method_without_await file_path) w
  = inr (false, content)
  /\ fs w' = fs w /\ writes w' = writes w
  /\ stdout w' = stdout w ++ deficit_report file_path content.
Proof.
  intros Hf%file_text_Some. unfold run, result.
  by rewrite (fix_async_file _ _ _ Hf).
Qed.

Lemma detect_only_witness :
  let w := World {[ "A.cs"%string :=
                      File (str "async Task F() { } async Task G() { await H(); }") ]}
                 [] [] in
  let w' := run (fix_async_method_without_await "A.cs") w in
  result (fix_async_method_without_await "A.cs") w
  = inr (false, str "async Task F() { } async Task G() { await H(); }")
  /\ fs w' = fs w /\ writes w' = writes w
  /\ stdout w' = stdout w
       ++ deficit_report "A.cs"
            (str "async Task F() { } async Task G() { await H(); }").
Proof.
  apply (detect_only
           (World {[ "A.cs"%string :=
                       File (str "async Task F() { } async Task G() { await H(); }") ]}
                  [] [])
           "A.cs"
           (str "async Task F() { } async Task G() { await H(); }")).
  vm_compute. reflexivity.
Defined.

(** C8. The deficit check counts the non-overlapping matches of the
    declaration pattern [async\s+Task] and of the fulfillment pattern
    [await\s+], and prints the deficit, declarations minus fulfillments,
    exactly when it is positive. *)
Theorem deficit_counting w file_path content :
  file_text w file_path = Some content ->
  let declarations := Re.finditer async_pattern content in
  let fulfillments := Re.finditer await_pattern content in
  let deficit :=
    (Z.of_nat (length declarations) - Z.of_nat (length fulfillments))%Z in
  Re.non_overlapping_matches async_pattern content declarations
  /\ Re.non_overlapping_matches await_pattern content fulfillments
  /\ async_count content = length declarations
  /\ await_count content = length fulfillments
  /\ stdout (run (fix_async_method_without_await file_path) w)
     = stdout w ++ if bool_decide (0 < deficit)%Z
                   then [found_line file_path (Z.to_nat deficit)]
                   else [].
Proof.
  intros Hf%file_text_Some. cbv zeta.
  split; [apply finditer_non_overlapping|].
  split; [apply finditer_non_overlapping|].
  split; [apply length_findall|]. split; [apply length_findall|].
  unfold run. rewrite (fix_async_file _ _ _ Hf). cbn [fst say stdout].
  f_equal. unfold deficit_report, async_count, await_count.
  rewrite !length_findall.
  set (a := length (Re.finditer async_pattern content)).
  set (f := length (Re.finditer await_pattern content)).
  destruct (Nat.ltb_spec f a).
  - rewrite bool_decide_eq_true_2 by lia. do 2 f_equal. lia.
  - by rewrite bool_decide_eq_false_2 by lia.
Qed.

Lemma deficit_counting_witness :
  let content :=
    str "async Task A() {} async  Task B() {} async Task C() { await D(); }" in
  let w := World {[ "A.cs"%string := File content ]} [] [] in
  async_count content = 3 /\ await_count content = 1
  /\ stdout (run (fix_async_method_without_await "A.cs") w)
     = [str "Found 2 async methods without await in A.cs"].
Proof.
  intros content w.
  assert (Hfile : file_text w "A.cs" = Some content)
    by (vm_compute; reflexivity).
  destruct (deficit_counting w "A.cs" content Hfile)
    as (_ & _ & Ha & Hf & Hout).
  rewrite Ha, Hf, Hout. vm_compute. auto.
Defined.

(** Two declarations and two fulfillments: no line is printed. *)
Example deficit_zero_silent :
  let content := str "async Task A() { await B(); } async Task C() { await D(); }" in
  let w := World {[ "A.cs"%string := File content ]} [] [] in
  async_count content = 2 /\ await_count content = 2
  /\ stdout (run (fix_async_method_without_await "A.cs") w) = [].
Proof. vm_compute. auto. Qed.

End AsyncFacts.

(** ** The batch runners *)

Section RunnerFacts.

Import Reindent.
Implicit Types (w : world) (path : string) (content : text).

Lemma fix_one_file w path content :
  fs w !! path = Some (File content) ->
  fix_one path w
  = (World (<[path := File (reindent content)]> (fs w))
           (writes w ++ [(path, reindent content)])
           (stdout w ++ [str "Fixed indentation in " ++ str path]),
     inr tt).
Proof.
  intros Hf. unfold fix_one, bind, read_file, write_file, print.
  rewrite Hf. cbn [fs]. by rewrite Hf.
Qed.

Lemma file_text_insert w path content ws out q :
  file_text (World (<[path := File content]> (fs w)) ws out) q
  = if decide (q = path) then Some content else file_text w q.
Proof.
  unfold file_text. cbn [fs]. destruct (decide (q = path)) as [->|Hne].
  - by rewrite lookup_insert_eq.
  - by rewrite lookup_insert_ne.
Qed.

Lemma file_line_insert w path content content' ws out q :
  fs w !! path = Some (File content) ->
  file_line (World (<[path := File content']> (fs w)) ws out) q
  = file_line w q.
Proof.
  intros Hf. unfold file_line. cbn [fs].
  destruct (decide (q = path)) as [->|Hne].
  - by rewrite lookup_insert_eq, Hf.
  - by rewrite lookup_insert_ne.
Qed.

(** One turn of the loop never raises; it prints one line, and changes
    at most the file it was given. *)
Lemma attempt_spec w path :
  exists w',
    attempt path w = (w', inr tt)
    /\ stdout w' = stdout w ++ [file_line w path]
    /\ writes w'
       = writes w ++ match file_text w path with
                     | Some content => [(path, reindent content)]
                     | None => []
                     end
    /\ (forall q, file_text w' q
                  = if decide (q = path) then reindent <$> file_text w q
                    else file_text w q)
    /\ (forall q, file_line w' q = file_line w q).
Proof.
  unfold attempt, try_except. destruct (fs w !! path) as [[content|]|] eqn:Hf.
  - rewrite (fix_one_file _ _ _ Hf). eexists. split; [done|].
    cbn [stdout writes]. unfold file_line at 1, file_text at 1. rewrite Hf.
    repeat split; try done.
    + intros q. rewrite file_text_insert. case_decide; [subst|done].
      unfold file_text. by rewrite Hf.
    + intros q. by eapply file_line_insert.
  - unfold fix_one, bind, read_file, print. rewrite Hf. eexists.
    split; [done|]. cbn [stdout writes].
    unfold file_line at 1, file_text at 1. rewrite Hf, app_nil_r.
    repeat split; try done.
    intros q. case_decide; [subst|done]. unfold file_text. cbn [fs].
    by rewrite Hf.
  - unfold fix_one, bind, read_file, print. rewrite Hf. eexists.
    split; [done|]. cbn [stdout writes].
    unfold file_line at 1, file_text at 1. rewrite Hf, app_nil_r.
    repeat split; try done.
    intros q. case_decide; [subst|done]. unfold file_text. cbn [fs].
    by rewrite Hf.
Qed.

Lemma fix_all_spec files w :
  let w' := run (fix_all files) w in
  result (fix_all files) w = inr tt
  /\ stdout w' = stdout w ++ (file_line w <$> files)
  /\ (forall q, file_text w' q
                = if decide (q ∈ files) then reindent <$> file_text w q
                  else file_text w q).
Proof.
  revert w. induction files as [|p rest IH]; intros w; cbv zeta.
  - unfold run, result. simpl. rewrite app_nil_r. by repeat split.
  - destruct (attempt_spec w p) as (w1 & Hrun & Hout & _ & Htext & Hline).
    destruct (IH w1) as (Hres & Hout' & Htext').
    assert (Heq : fix_all (p :: rest) w = fix_all rest w1)
      by (cbn [fix_all]; unfold bind; by rewrite Hrun).
    unfold run, result in *. rewrite Heq. split; [done|]. split.
    + rewrite Hout', Hout, <- app_assoc. cbn [fmap list_fmap app].
      do 2 f_equal. apply list_fmap_ext. intros _ q _. apply Hline.
    + intros q. rewrite Htext', !Htext.
      destruct (decide (q = p)) as [->|Hne].
      * rewrite (decide_True (P := p ∈ p :: rest))
          by (apply elem_of_cons; by left).
        case_decide; [|done].
        destruct (file_text w p) as [c|]; [|done]. simpl.
        unfold reindent at 1 3. by rewrite readlines_reindent, fix_loop_fixed.
      * destruct (decide (q ∈ rest)) as [Hin|Hnin].
        -- by rewrite (decide_True (P := q ∈ p :: rest))
             by (apply elem_of_cons; by right).
        -- rewrite (decide_False (P := q ∈ p :: rest)); [done|].
           intros [?|?]%elem_of_cons; done.
Qed.

(** C3, as the code has it. [process_file] of [fix_async_errors.py] writes
    a file back only when the changed flag is set, which never happens:
    no write occurs and the files stay as they were. The region re-indent
    runner writes back every file it could read, with the re-indented
    text, whether or not any line changed. *)
Theorem write_back_policy w path content :
  file_text w path = Some content ->
  (let w' := run (AsyncErrors.process_file path) w in
   result (AsyncErrors.process_file path) w = inr false
   /\ writes w' = writes w /\ fs w' = fs w)
  /\ (let w' := run (fix_all [path]) w in
      writes w' = writes w ++ [(path, reindent content)]
      /\ file_text w' path = Some (reindent content)).
Proof.
  intros Hf. split; cbv zeta.
  - apply file_text_Some in Hf. unfold run, result.
    by rewrite (process_file_file _ _ _ Hf).
  - destruct (attempt_spec w path) as (w1 & Hrun & _ & Hw & Htext & _).
    unfold run. cbn [fix_all]. unfold bind. rewrite Hrun. cbn [ret fst].
    rewrite Hw, Htext, Hf. by rewrite decide_True.
Qed.

Lemma write_back_policy_witness :
  let content := str "#region IInterpretableModel Implementation
    a();
#endregion
" in
  let w := World {[ "A.cs"%string := File content ]} [] [] in
  writes (run (AsyncErrors.process_file "A.cs") w) = []
  /\ writes (run (fix_all ["A.cs"%string]) w)
     = [("A.cs"%string, str "#region IInterpretableModel Implementation
        a();
#endregion
")].
Proof.
  intros content w.
  assert (Hfile : file_text w "A.cs" = Some content)
    by (vm_compute; reflexivity).
  destruct (write_back_policy w "A.cs" content Hfile)
    as [(_ & Hw1 & _) (Hw2 & _)].
  split; [exact Hw1|]. rewrite Hw2. reflexivity.
Defined.

(** C3 as stated fails for the region re-indent runner: a file without
    any region, whose text the pass leaves as it is, is written back all
    the same. *)
Lemma unchanged_file_written_back :
  let content := str "class A {}
" in
  let w := World {[ "A.cs"%string := File content ]} [] [] in
  let w' := run (fix_all ["A.cs"%string]) w in
  reindent content = content
  /\ file_text w' "A.cs" = Some content
  /\ writes w' = [("A.cs"%string, content)]
  /\ written w' "A.cs" = true.
Proof. vm_compute. auto. Qed.

(** C7, as the code has it. The region re-indent runner never raises:
    whatever goes wrong with a path is caught and printed on a line of
    its own, every path of the list gets its line, in order, and every
    listed file that can be read ends up re-indented. In
    [fix_async_errors.py], for a list in which every path is either
    missing or a file that can be read, a missing path is reported and
    skipped, every other path of the list gets its report, the run ends
    with the summary line, and [fixed_count] is the number of files
    whose text changed, which is zero: neither the files nor the trace
    of writes move. No total of attempted files is kept. *)
Theorem batch_isolation files w :
  (let w' := run (fix_all files) w in
   result (fix_all files) w = inr tt
   /\ stdout w' = stdout w ++ (file_line w <$> files)
   /\ forall p, p ∈ files -> file_text w' p = reindent <$> file_text w p)
  /\ ((forall p, p ∈ files -> fs w !! p <> Some Dir) ->
      let w' := run (AsyncErrors.main_on files) w in
      result (AsyncErrors.main_on files) w = inr tt
      /\ result (AsyncErrors.count_fixed files 0) w = inr 0
      /\ fs w' = fs w /\ writes w' = writes w
      /\ stdout w'
         = stdout w ++ concat (AsyncErrors.file_report w <$> files)
             ++ [NL :: str "Fixed 0 files"]).
Proof.
  split; cbv zeta.
  - destruct (fix_all_spec files w) as (Hres & Hout & Htext).
    split; [done|]. split; [done|].
    intros p Hp. by rewrite Htext, decide_True.
  - intros Hnd. unfold run, result, AsyncErrors.main_on, bind.
    rewrite (count_fixed_report files w 0 Hnd).
    unfold print, say. cbn [fst snd fs writes stdout].
    by rewrite <- app_assoc.
Qed.

Lemma batch_isolation_witness :
  let files := ["A.cs"; "Missing.cs"; "C.cs"]%string in
  let w :=
    World {[ "A.cs"%string := File (str "async Task F() { }");
             "C.cs"%string := File (str "class C { }") ]} [] [] in
  result (fix_all files) w = inr tt
  /\ result (AsyncErrors.main_on files) w = inr tt
  /\ stdout (run (AsyncErrors.main_on files) w)
     = [ str "Found 1 async methods without await in A.cs";
         str "File not found: Missing.cs";
         NL :: str "Fixed 0 files" ].
Proof.
  intros files w.
  destruct (batch_isolation files w) as [(Hres & _) Hasync].
  assert (Hnd : forall p, p ∈ files -> fs w !! p <> Some Dir).
  { intros p Hp. repeat (apply elem_of_cons in Hp as [->|Hp]);
      [vm_compute; discriminate ..|by apply elem_of_nil in Hp]. }
  destruct (Hasync Hnd) as (Hres' & _ & _ & _ & Hout).
  split; [exact Hres|]. split; [exact Hres'|].
  rewrite Hout. vm_compute. reflexivity.
Defined.

(** C7 as stated fails on the total: a run over no file and a run over
    one file that needs nothing end in the very same world with the very
    same result, so nothing counts the files attempted. *)
Lemma no_total_of_attempted_files :
  let w := World {[ "A.cs"%string := File (str "class A { }") ]} [] [] in
  AsyncErrors.main_on [] w = AsyncErrors.main_on ["A.cs"%string] w
  /\ stdout (run (AsyncErrors.main_on ["A.cs"%string]) w)
     = [NL :: str "Fixed 0 files"].
Proof. vm_compute. auto. Qed.

(** A path that exists and cannot be read as a file passes the guard of
    [process_file]; the exception of [open] then leaves [main], and the
    paths after it are not visited. *)
Remark unreadable_path_stops_main :
  let w := World {[ "dir"%string := Dir;
                    "A.cs"%string := File (str "async Task F() { }") ]}
                 [] [] in
  AsyncErrors.main_on ["dir"; "A.cs"]%string w
  = (w, inl (IsADirectoryError "dir")).
Proof. vm_compute. reflexivity. Qed.

End RunnerFacts.

(** ** The declaration injector *)

Section InjectorFacts.

Import Cs0535.
Implicit Types (w : world) (s p t line content : text) (c : ascii)
  (lines : list text).

(** *** Stripping *)

Lemma startswith_inv s p : startswith s p = true -> exists t, s = p ++ t.
Proof.
  revert s. induction p as [|a p IH]; intros s Hs; [by exists s|].
  destruct s as [|b s]; [done|]. cbn [startswith] in Hs.
  apply andb_prop in Hs as [->%Ascii.eqb_eq Hs].
  destruct (IH _ Hs) as [t ->]. by exists t.
Qed.

Lemma startswith_app_l s t p :
  startswith s p = true -> startswith (s ++ t) p = true.
Proof. intros [u ->]%startswith_inv. rewrite <- app_assoc. apply startswith_app. Qed.

Lemma lstrip_split s :
  exists t, s = t ++ lstrip s /\ Forall (fun c => isspace c = true) t.
Proof.
  induction s as [|c s (t & Hs & Ht)]; [by exists []|]. cbn [lstrip].
  destruct (isspace c) eqn:Hc.
  - exists (c :: t). split; [by rewrite Hs at 1|by constructor].
  - by exists [].
Qed.

Lemma rstrip_split s : exists t, s = rstrip s ++ t.
Proof.
  unfold rstrip. destruct (lstrip_split (rev s)) as (t & Hs & _).
  exists (rev t). rewrite <- rev_app_distr, <- Hs. by rewrite rev_involutive.
Qed.

Lemma lstrip_app s t :
  Exists (fun c => isspace c = false) s -> lstrip (s ++ t) = lstrip s ++ t.
Proof.
  induction 1 as [c s Hc|c s _ IH]; cbn [lstrip app].
  - by rewrite Hc.
  - by destruct (isspace c).
Qed.

Lemma contains_char c s : contains [c] s = true <-> c ∈ s.
Proof.
  induction s as [|b s IH]; cbn [contains startswith].
  - split; [done|]. by intros ?%elem_of_nil.
  - rewrite orb_true_iff, andb_true_r, IH, elem_of_cons, Ascii.eqb_eq.
    done.
Qed.

(** The test of the loop is the anchor test of the specification:
    stripping the right end as well changes nothing for a line that
    holds a [;]. *)
Lemma is_using_anchor line : is_using line = is_anchor line.
Proof.
  unfold is_using, is_anchor, strip.
  destruct (contains (str ";") line) eqn:Hsemi; [|by rewrite !andb_false_r].
  rewrite !andb_true_r.
  destruct (startswith (lstrip line) (str "using ")) eqn:Hu.
  - apply startswith_inv in Hu as [v Hv].
    assert (Hin : ";"%char ∈ v).
    { apply contains_char in Hsemi.
      destruct (lstrip_split line) as (t & Hline & Ht).
      rewrite Hline, Hv in Hsemi.
      apply elem_of_app in Hsemi as [Hsemi|Hsemi].
      - rewrite Forall_forall in Ht. apply Ht in Hsemi.
        vm_compute in Hsemi. discriminate.
      - apply elem_of_app in Hsemi as [Hsemi|Hsemi]; [|done].
        cbn in Hsemi.
        repeat (apply elem_of_cons in Hsemi as [Hsemi|Hsemi];
                [discriminate|]).
        by apply elem_of_nil in Hsemi. }
    rewrite Hv. unfold rstrip. rewrite rev_app_distr, lstrip_app.
    + rewrite rev_app_distr, rev_involutive. apply startswith_app.
    + apply Exists_exists. exists ";"%char. split; [|done].
      apply list_elem_of_In, in_rev. rewrite rev_involutive.
      by apply list_elem_of_In.
  - destruct (startswith (rstrip (lstrip line)) (str "using ")) eqn:Hr;
      [|done].
    destruct (rstrip_split (lstrip line)) as [t Ht].
    rewrite Ht in Hu. by rewrite startswith_app_l in Hu.
Qed.

Lemma has_using_anchor content : has_using content = has_anchor content.
Proof.
  unfold has_using, has_anchor.
  induction (split_nl content) as [|l ls IH]; [done|]. simpl.
  by rewrite is_using_anchor, IH.
Qed.

(** *** The search for the last [using] line *)

Lemma find_last_using_none i lines z :
  existsb is_using lines = false -> find_last_using i lines z = z.
Proof.
  revert i z. induction lines as [|l ls IH]; intros i z Hno; [done|].
  simpl in Hno. apply orb_false_elim in Hno as [Hl Hls].
  cbn [find_last_using]. rewrite Hl. by apply IH.
Qed.

Lemma find_last_using_found i lines z :
  (0 <= z)%Z \/ existsb is_using lines = true ->
  (0 <= find_last_using i lines z)%Z.
Proof.
  revert i z. induction lines as [|l ls IH]; intros i z Hz.
  - destruct Hz as [Hz|Hz]; [done|discriminate].
  - cbn [find_last_using]. apply IH. simpl in Hz.
    destruct (is_using l); [left; lia|]. by destruct Hz as [Hz|Hz]; [left|right].
Qed.

(** *** Splitting and joining *)

Lemma split_nl_not_nil s : split_nl s <> [].
Proof.
  induction s as [|c s IH]; [done|]. simpl.
  destruct (Ascii.eqb c NL); [done|]. by destruct (split_nl s).
Qed.

Lemma join_nl_cons l lines :
  lines <> [] -> join_nl (l :: lines) = l ++ NL :: join_nl lines.
Proof. by destruct lines. Qed.

Lemma join_split s : join_nl (split_nl s) = s.
Proof.
  induction s as [|c s IH]; [done|]. cbn [split_nl].
  pose proof (split_nl_not_nil s) as Hne.
  destruct (Ascii.eqb_spec c NL) as [->|Hc].
  - by rewrite join_nl_cons, IH.
  - destruct (split_nl s) as [|l ls]; [done|].
    destruct ls as [|l' ls].
    + simpl in *. by rewrite IH.
    + rewrite join_nl_cons in IH by done. rewrite join_nl_cons by done.
      by rewrite <- IH.
Qed.

(** *** Counting a one-line text in a document *)

Section Occurrences.

Variable D : text.
Hypothesis D_one_line : NL ∉ D.
Hypothesis D_not_nil : D <> [].

Lemma startswith_line_end l rest :
  startswith (l ++ NL :: rest) D = startswith l D.
Proof using D_one_line.
  clear D_not_nil. revert l. induction D as [|a d IH]; intros l; [done|].
  apply not_elem_of_cons in D_one_line as [Ha Hd].
  destruct l as [|b l]; cbn [app startswith].
  - destruct (Ascii.eqb_spec a NL); [congruence|done].
  - by rewrite IH.
Qed.

Lemma occurrences_nil : occurrences D [] = 0.
Proof using D_not_nil. clear D_one_line. by destruct D. Qed.

Lemma occurrences_line_end l rest :
  occurrences D (l ++ NL :: rest) = occurrences D l + occurrences D rest.
Proof using D_one_line D_not_nil.
  induction l as [|b l IH].
  - pose proof (startswith_line_end [] rest) as Hs.
    rewrite occurrences_nil. cbn [app occurrences] in *. rewrite Hs.
    by destruct D.
  - pose proof (startswith_line_end (b :: l) rest) as Hs.
    cbn [app occurrences] in *. rewrite Hs, IH. lia.
Qed.

Lemma occurrences_join lines :
  occurrences D (join_nl lines) = sum_list_with (occurrences D) lines.
Proof using D_one_line D_not_nil.
  induction lines as [|l ls IH]; [apply occurrences_nil|].
  destruct ls as [|l' ls]; [simpl; lia|].
  rewrite join_nl_cons by done. rewrite occurrences_line_end, IH. done.
Qed.

Lemma occurrences_insert_line k lines :
  occurrences D (join_nl (list_insert_at k D lines))
  = occurrences D D + occurrences D (join_nl lines).
Proof using D_one_line D_not_nil.
  rewrite !occurrences_join. unfold list_insert_at.
  rewrite <- (take_drop k lines) at 3.
  rewrite !sum_list_with_app. simpl. lia.
Qed.

End Occurrences.

Lemma contains_occurrences p s : contains p s = (0 <? occurrences p s).
Proof.
  induction s as [|c s IH]; cbn [contains occurrences].
  - by destruct (startswith [] p).
  - rewrite IH. destruct (startswith (c :: s) p); [done|].
    by destruct (occurrences p s).
Qed.

(** *** [check_and_add_using] *)

Lemma using_line_one_line : NL ∉ using_line.
Proof.
  unfold using_line. repeat (apply not_NL_cons; [discriminate|]).
  apply not_elem_of_nil.
Qed.

Lemma using_line_not_nil : using_line <> [].
Proof. discriminate. Qed.

Lemma add_using_present content :
  contains using_line content = true -> add_using content = None.
Proof. unfold add_using. by intros ->. Qed.

Lemma add_using_no_anchor content :
  has_using content = false -> add_using content = None.
Proof.
  unfold add_using, has_using. intros Hno.
  destruct (contains using_line content); [done|]. cbn [negb].
  by rewrite find_last_using_none.
Qed.

Lemma add_using_inserts content :
  contains using_line content = false -> has_using content = true ->
  exists k, add_using content
            = Some (join_nl (list_insert_at k using_line (split_nl content))).
Proof.
  unfold add_using, has_using. intros -> Hsome. cbn [negb].
  pose proof (find_last_using_found 0 (split_nl content) (-1)
                (or_intror Hsome)) as Hidx.
  apply Z.leb_le in Hidx. rewrite Hidx. eauto.
Qed.

Lemma check_and_add_using_file w file_path content :
  fs w !! file_path = Some (File content) ->
  check_and_add_using file_path w
  = match add_using content with
    | Some content' =>
        (World (<[file_path := File content']> (fs w))
               (writes w ++ [(file_path, content')])
               (stdout w ++ [str "Added using statement to "
                               ++ str file_path]),
         inr true)
    | None => (w, inr false)
    end.
Proof.
  intros Hf. unfold check_and_add_using, bind at 1, read_file. rewrite Hf.
  destruct (add_using content) as [content'|]; [|done].
  unfold bind, write_file, print. rewrite Hf. cbn [fs]. done.
Qed.

(** C10. When the required line is absent and the document has no anchor
    line (none that, stripped of its leading white space, starts with
    ["using "] and holds a [;]), [check_and_add_using] inserts nothing,
    writes nothing, leaves the document as it is and returns [False]. *)
Theorem no_anchor_no_insert w file_path content :
  file_text w file_path = Some content ->
  contains using_line content = false ->
  has_anchor content = false ->
  check_and_add_using file_path w = (w, inr false).
Proof.
  intros Hf%file_text_Some _ Hno.
  rewrite (check_and_add_using_file _ _ _ Hf), add_using_no_anchor; [done|].
  by rewrite has_using_anchor.
Qed.

Lemma no_anchor_no_insert_witness :
  let w := World {[ "A.cs"%string := File (str "namespace N
{
    class A { }
}
") ]} [] [] in
  check_and_add_using "A.cs" w = (w, inr false).
Proof.
  intros w.
  apply (no_anchor_no_insert w "A.cs" (str "namespace N
{
    class A { }
}
")); vm_compute; reflexivity.
Defined.

(** C4, as the code has it. A call on a text that already holds the
    required line verbatim returns [False] and changes nothing. For a
    document that holds the line exactly once, or does not hold it and
    has a line passing the [using] test, the line occurs exactly once
    after two calls, and the second call changes nothing. *)
Theorem injector_idempotent w file_path content :
  file_text w file_path = Some content ->
  let once := run (check_and_add_using file_path) w in
  let twice := run (check_and_add_using file_path) once in
  (contains using_line content = true ->
   check_and_add_using file_path w = (w, inr false))
  /\ (occurrences using_line content = 1
      \/ occurrences using_line content = 0 /\ has_using content = true ->
      twice = once
      /\ exists content',
           file_text twice file_path = Some content'
           /\ occurrences using_line content' = 1).
Proof.
  intros Hf. pose proof Hf as Hfs%file_text_Some. cbv zeta. split.
  - intros Hin.
    by rewrite (check_and_add_using_file _ _ _ Hfs), add_using_present.
  - intros [Hone|[Hzero Hanchor]].
    + assert (Hin : contains using_line content = true)
        by (by rewrite contains_occurrences, Hone).
      unfold run.
      rewrite (check_and_add_using_file _ _ _ Hfs), add_using_present
        by done. cbn [fst].
      rewrite (check_and_add_using_file _ _ _ Hfs), add_using_present
        by done. eauto.
    + assert (Hout : contains using_line content = false)
        by (by rewrite contains_occurrences, Hzero).
      destruct (add_using_inserts _ Hout Hanchor) as [k Hk].
      set (content' :=
             join_nl (list_insert_at k using_line (split_nl content))) in *.
      assert (Hocc : occurrences using_line content' = 1).
      { unfold content'.
        rewrite occurrences_insert_line, join_split, Hzero
          by auto using using_line_one_line, using_line_not_nil.
        reflexivity. }
      set (once :=
             World (<[file_path := File content']> (fs w))
                   (writes w ++ [(file_path, content')])
                   (stdout w ++ [str "Added using statement to "
                                   ++ str file_path])).
      assert (Hfs' : fs once !! file_path = Some (File content'))
        by (unfold once; cbn [fs]; apply lookup_insert_eq).
      assert (H1 : run (check_and_add_using file_path) w = once)
        by (unfold run;
            by rewrite (check_and_add_using_file _ _ _ Hfs), Hk).
      assert (H2 : run (check_and_add_using file_path) once = once).
      { unfold run.
        rewrite (check_and_add_using_file _ _ _ Hfs'), add_using_present;
          [done|]. by rewrite contains_occurrences, Hocc. }
      rewrite H1, H2. split; [done|]. exists content'. split; [|done].
      by apply file_text_Some.
Qed.

Lemma injector_idempotent_witness :
  let content := str "using System;
using System.Linq;

namespace N { }
" in
  let w := World {[ "A.cs"%string := File content ]} [] [] in
  let twice :=
    run (check_and_add_using "A.cs") (run (check_and_add_using "A.cs") w) in
  file_text twice "A.cs" = Some (str "using System;
using System.Linq;
using AiDotNet.Interpretability;

namespace N { }
")
  /\ exists content',
       file_text twice "A.cs" = Some content'
       /\ occurrences using_line content' = 1.
Proof.
  intros content w twice.
  assert (Hfile : file_text w "A.cs" = Some content)
    by (vm_compute; reflexivity).
  destruct (injector_idempotent w "A.cs" content Hfile) as [_ Htwice].
  destruct Htwice as [_ Hocc].
  { right. vm_compute. auto. }
  split; [vm_compute; reflexivity|exact Hocc].
Defined.

(** C4 as stated fails on a document without any [using] line: after two
    calls the required line occurs zero times. *)
Lemma injector_without_anchor :
  let content := str "namespace N { class A { } }
" in
  let w := World {[ "A.cs"%string := File content ]} [] [] in
  let twice :=
    run (check_and_add_using "A.cs") (run (check_and_add_using "A.cs") w) in
  file_text twice "A.cs" = Some content
  /\ occurrences using_line content = 0.
Proof. vm_compute. auto. Qed.

End InjectorFacts.

(** * Further properties of the scripts *)

(** ** Regions *)

Section RegionFacts.

Import Reindent.
Implicit Types (line content p s : text) (lines : list text)
  (in_region : bool).

#[local] Arguments step : simpl never.

Lemma concat_readlines s : concat (readlines s) = s.
Proof.
  induction s as [|c s IH]; [done|]. cbn [readlines].
  destruct (Ascii.eqb c NL); [simpl; by rewrite IH|].
  destruct (readlines s) as [|l ls]; simpl in *; by rewrite <- IH.
Qed.

Lemma contains_app_r p a s :
  contains p s = true -> contains p (a ++ s) = true.
Proof.
  intros Hs. induction a as [|c a IH]; [done|].
  cbn [app contains]. by rewrite IH, orb_true_r.
Qed.

Lemma contains_app_l p s b :
  contains p s = true -> contains p (s ++ b) = true.
Proof.
  induction s as [|c s IH]; intros Hs.
  - destruct p as [|a p]; [by destruct b|done].
  - cbn [contains] in Hs. apply orb_prop in Hs as [Hs|Hs].
    + cbn [app contains]. change (c :: s ++ b) with ((c :: s) ++ b).
      by rewrite startswith_app_l.
    + cbn [app contains]. by rewrite IH, orb_true_r.
Qed.

(** A text found in a line is found in the document. *)
Lemma contains_line p lines line :
  line ∈ lines -> contains p line = true ->
  contains p (concat lines) = true.
Proof.
  intros (l1 & l2 & ->)%list_elem_of_split Hp.
  rewrite concat_app. cbn [concat]. by apply contains_app_r, contains_app_l.
Qed.

(** The state after a turn depends on the line alone when it carries a
    marker: the start marker sets it, the end marker without the start
    marker clears it. *)
Lemma step_state in_region line :
  fst (step in_region line)
  = if contains start_marker line then true
    else if contains end_marker line then false
    else in_region.
Proof.
  unfold step. destruct (contains start_marker line); [done|].
  destruct (contains end_marker line), in_region; cbn [andb fst]; try done;
    by destruct (startswith line quantum && negb (startswith line two_quanta)).
Qed.

Lemma in_region_at_S in_region lines i line :
  lines !! i = Some line ->
  in_region_at in_region lines (S i)
  = fst (step (in_region_at in_region lines i) line).
Proof.
  revert in_region i. induction lines as [|l rest IH]; intros b i Hl;
    [done|].
  destruct i as [|i].
  - simpl in Hl. injection Hl as ->. by destruct rest.
  - simpl in Hl. cbn [in_region_at]. by rewrite <- (IH _ _ Hl).
Qed.

Lemma length_fix_loop in_region lines :
  length (fix_loop in_region lines) = length lines.
Proof.
  revert in_region. induction lines as [|l rest IH]; intros b; [done|].
  cbn [fix_loop]. destruct (step b l). simpl. by rewrite IH.
Qed.

Lemma fix_loop_no_marker lines :
  Forall (fun line => contains start_marker line = false) lines ->
  fix_loop false lines = lines.
Proof.
  induction 1 as [|l rest Hl _ IH]; [done|].
  cbn [fix_loop]. unfold step. rewrite Hl, andb_false_r. by rewrite IH.
Qed.

Lemma in_region_at_fix_loop in_region lines i :
  in_region_at in_region (fix_loop in_region lines) i
  = in_region_at in_region lines i.
Proof.
  revert in_region i. induction lines as [|l rest IH]; intros b i;
    [done|].
  cbn [fix_loop]. pose proof (step_fixed b l) as Hfix.
  destruct (step b l) as [b' out] eqn:Hst. cbn [snd] in Hfix.
  destruct i as [|i]; [done|]. cbn [in_region_at].
  by rewrite Hfix, Hst, IH.
Qed.

(** X1. When the text read from a file does not hold the start marker,
    the text the pass hands to [writelines] is the text [readlines] was
    given, character for character. *)
Theorem reindent_without_region content :
  contains start_marker content = false -> reindent content = content.
Proof.
  intros Hno. unfold reindent, writelines.
  rewrite fix_loop_no_marker; [apply concat_readlines|].
  apply Forall_forall. intros line Hin.
  destruct (contains start_marker line) eqn:Hl; [|done].
  pose proof (contains_line _ _ _ Hin Hl) as Hc.
  rewrite concat_readlines in Hc. congruence.
Qed.

Lemma reindent_without_region_witness :
  reindent (str "class A
{
    void F() { }
    #endregion
}
") = str "class A
{
    void F() { }
    #endregion
}
".
Proof. apply reindent_without_region. reflexivity. Defined.

(** X2. Regions are flat and are not closed at the end of the file: the
    loop reaches line [i] with [in_region] set exactly when some earlier
    line holds the start marker and no line after that one and before
    line [i] holds the end marker. *)
Theorem in_region_flat lines i :
  i <= length lines ->
  in_region_at false lines i = true
  <-> exists j opening,
        j < i /\ lines !! j = Some opening
        /\ contains start_marker opening = true
        /\ forall k line, j < k < i -> lines !! k = Some line ->
             contains end_marker line = false.
Proof.
  induction i as [|i IH]; intros Hi.
  - split; [by destruct lines|]. intros (j & _ & Hj & _). lia.
  - destruct (lookup_lt_is_Some_2 lines i) as [line Hline]; [lia|].
    rewrite (in_region_at_S _ _ _ _ Hline), step_state.
    destruct (contains start_marker line) eqn:Hs.
    { split; [|done]. intros _. exists i, line.
      repeat split; [lia|done|done|]. intros k l Hk. lia. }
    destruct (contains end_marker line) eqn:He.
    { split; [done|]. intros (j & opening & Hj & Hop & Hst & Hbetween).
      destruct (decide (j = i)) as [->|Hne]; [congruence|].
      specialize (Hbetween i line). rewrite Hbetween in He; [done|lia|done]. }
    rewrite IH by lia. split.
    + intros (j & opening & Hj & Hop & Hst & Hbetween).
      exists j, opening. repeat split; [lia|done|done|].
      intros k l Hk Hl. destruct (decide (k = i)) as [->|Hne].
      * congruence.
      * apply (Hbetween k); [lia|done].
    + intros (j & opening & Hj & Hop & Hst & Hbetween).
      destruct (decide (j = i)) as [->|Hne]; [congruence|].
      exists j, opening. repeat split; [lia|done|done|].
      intros k l Hk Hl. apply (Hbetween k); [lia|done].
Qed.

Lemma in_region_flat_witness :
  in_region_at false
    [str "#region IInterpretableModel Implementation";
     str "#region IInterpretableModel Implementation";
     str "    a();"; str "#endregion"; str "    b();"] 3 = true.
Proof.
  apply in_region_flat; [simpl; lia|].
  exists 1, (str "#region IInterpretableModel Implementation").
  repeat split; [lia|].
  intros k line Hk Hl. assert (k = 2) as -> by lia.
  injection Hl as <-. reflexivity.
Defined.

(** X3. The pass keeps the number of lines, and every line of the output
    is the line of the input at the same place, as it was or with
    exactly four spaces put in front: nothing is removed, reordered or
    changed after the indentation. *)
Theorem reindent_lines content :
  length (readlines (reindent content)) = length (readlines content)
  /\ forall i line,
       readlines content !! i = Some line ->
       readlines (reindent content) !! i = Some line
       \/ readlines (reindent content) !! i = Some (quantum ++ line).
Proof.
  rewrite readlines_reindent. split; [apply length_fix_loop|].
  intros i line Hline.
  pose proof (fix_loop_lookup false (readlines content) i) as Hout.
  rewrite Hline in Hout. simpl in Hout.
  destruct (step_out (in_region_at false (readlines content) i) line)
    as [Hst|Hst]; rewrite Hst in Hout; [left|right]; exact Hout.
Qed.

(** X4. The pass does not move the regions: the loop reaches every line
    of the output in the state in which it reached that line of the
    input. *)
Theorem reindent_keeps_regions content i :
  in_region_at false (readlines (reindent content)) i
  = in_region_at false (readlines content) i.
Proof. by rewrite readlines_reindent, in_region_at_fix_loop. Qed.

End RegionFacts.

(** ** The re-indent scripts on the file system *)

Section ReindentRunFacts.

Import Reindent.
Implicit Types (w : world) (path q : string) (content : text)
  (files : list string).

Lemma attempt_fs w path :
  exists w1,
    attempt path w = (w1, inr tt)
    /\ forall q, fs w1 !! q = reindented [path] q (fs w !! q).
Proof.
  unfold attempt, try_except, reindented.
  destruct (fs w !! path) as [[content|]|] eqn:Hf.
  - rewrite (fix_one_file _ _ _ Hf). eexists. split; [done|].
    intros q. cbn [fs]. destruct (decide (q = path)) as [->|Hne].
    + rewrite lookup_insert_eq, Hf.
      by rewrite decide_True by (by apply list_elem_of_singleton).
    + rewrite lookup_insert_ne by done.
      destruct (fs w !! q) as [[c|]|]; [|done..].
      by rewrite decide_False by (by intros ?%list_elem_of_singleton).
  - unfold fix_one, bind, read_file, print. rewrite Hf. eexists.
    split; [done|]. intros q. cbn [fs].
    destruct (fs w !! q) as [[c|]|] eqn:Hq; [|done..].
    rewrite decide_False; [done|]. intros ->%list_elem_of_singleton.
    congruence.
  - unfold fix_one, bind, read_file, print. rewrite Hf. eexists.
    split; [done|]. intros q. cbn [fs].
    destruct (fs w !! q) as [[c|]|] eqn:Hq; [|done..].
    rewrite decide_False; [done|]. intros ->%list_elem_of_singleton.
    congruence.
Qed.

Lemma fix_all_fs files w q :
  fs (run (fix_all files) w) !! q = reindented files q (fs w !! q).
Proof.
  revert w. induction files as [|p rest IH]; intros w.
  - unfold run, reindented. cbn [fix_all ret fst].
    destruct (fs w !! q) as [[c|]|]; [|done..].
    by rewrite decide_False by apply not_elem_of_nil.
  - destruct (attempt_fs w p) as (w1 & Hrun & Hfs).
    assert (Heq : fix_all (p :: rest) w = fix_all rest w1)
      by (cbn [fix_all]; unfold bind; by rewrite Hrun).
    unfold run in *. rewrite Heq, IH, Hfs. unfold reindented.
    destruct (fs w !! q) as [[c|]|]; [|done..]. do 2 f_equal.
    destruct (decide (q ∈ rest)) as [Hin|Hnin].
    + rewrite (decide_True (P := q ∈ p :: rest))
        by (apply elem_of_cons; by right).
      case_decide; [|done].
      unfold reindent at 1 3. by rewrite readlines_reindent, fix_loop_fixed.
    + destruct (decide (q = p)) as [->|Hne].
      * rewrite (decide_True (P := p ∈ [p]))
          by (by apply list_elem_of_singleton).
        by rewrite (decide_True (P := p ∈ p :: rest))
          by (apply elem_of_cons; by left).
      * rewrite (decide_False (P := q ∈ [p]))
          by (by intros ?%list_elem_of_singleton).
        by rewrite (decide_False (P := q ∈ p :: rest))
          by (by intros [?|?]%elem_of_cons).
Qed.

(** X5. [fix_simpleautoml_indentation.py] has no [try]: when its file is
    missing the [FileNotFoundError] of [open] ends the script with
    nothing written and nothing printed. On a regular file it writes the
    re-indented text once, prints its line and touches no other path. *)
Theorem simpleautoml_script w :
  (fs w !! simpleautoml_file_path = None ->
   fix_simpleautoml_indentation w
   = (w, inl (FileNotFoundError simpleautoml_file_path)))
  /\ (forall content,
        file_text w simpleautoml_file_path = Some content ->
        let w' := run fix_simpleautoml_indentation w in
        result fix_simpleautoml_indentation w = inr tt
        /\ file_text w' simpleautoml_file_path = Some (reindent content)
        /\ writes w'
           = writes w ++ [(simpleautoml_file_path, reindent content)]
        /\ stdout w'
           = stdout w ++ [str "Fixed indentation in SimpleAutoMLModel.cs"]
        /\ forall q, q <> simpleautoml_file_path ->
             fs w' !! q = fs w !! q).
Proof.
  split.
  - intros Hf. unfold fix_simpleautoml_indentation, bind, read_file.
    by rewrite Hf.
  - intros content Hf%file_text_Some. cbv zeta.
    unfold run, result, fix_simpleautoml_indentation, bind, read_file,
      write_file, print.
    rewrite Hf. cbn [fs]. rewrite Hf. cbn [fst snd fs writes stdout].
    repeat split.
    + unfold file_text. cbn [fs]. by rewrite lookup_insert_eq.
    + intros q Hq. by rewrite lookup_insert_ne.
Qed.

Lemma simpleautoml_script_witness :
  let w := World {[ simpleautoml_file_path :=
                      File (str "#region IInterpretableModel Implementation
    a();
") ]} [] [] in
  fix_simpleautoml_indentation (World ∅ [] [])
  = (World ∅ [] [], inl (FileNotFoundError simpleautoml_file_path))
  /\ file_text (run fix_simpleautoml_indentation w) simpleautoml_file_path
     = Some (str "#region IInterpretableModel Implementation
        a();
").
Proof.
  intros w. split.
  - apply (simpleautoml_script (World ∅ [] [])). reflexivity.
  - destruct (simpleautoml_script w) as [_ Hok].
    destruct (Hok (str "#region IInterpretableModel Implementation
    a();
")) as (_ & Htext & _); [vm_compute; reflexivity|].
    rewrite Htext. reflexivity.
Defined.

(** X6. Running the batch a second time leaves the files exactly as the
    first run left them. *)
Theorem fix_all_twice files w :
  fs (run (fix_all files) (run (fix_all files) w))
  = fs (run (fix_all files) w).
Proof.
  apply map_eq. intros q. rewrite !fix_all_fs. unfold reindented.
  destruct (fs w !! q) as [[c|]|]; [|done..]. do 2 f_equal.
  case_decide; [|done].
  unfold reindent at 1 3. by rewrite readlines_reindent, fix_loop_fixed.
Qed.

(** X7. The batch neither creates nor deletes a path, leaves what is not
    a regular file as it is, and touches no path outside its list. *)
Theorem fix_all_frame files w q :
  let w' := run (fix_all files) w in
  (fs w' !! q = None <-> fs w !! q = None)
  /\ (fs w' !! q = Some Dir <-> fs w !! q = Some Dir)
  /\ (q ∉ files -> fs w' !! q = fs w !! q).
Proof.
  cbv zeta. rewrite fix_all_fs. unfold reindented.
  destruct (fs w !! q) as [[c|]|]; repeat split; try done.
  intros Hq. by rewrite decide_False.
Qed.

Lemma fix_all_frame_witness :
  let w := World {[ "A.cs"%string :=
                      File (str "#region IInterpretableModel Implementation
    a();
");
                    "B.cs"%string :=
                      File (str "#region IInterpretableModel Implementation
    b();
") ]} [] [] in
  fs (run (fix_all ["A.cs"; "Missing.cs"]%string) w) !! "B.cs"%string
  = fs w !! "B.cs"%string.
Proof.
  intros w.
  destruct (fix_all_frame ["A.cs"; "Missing.cs"]%string w "B.cs")
    as (_ & _ & Hout).
  apply Hout. intros Hin.
  repeat (apply elem_of_cons in Hin as [Hin|Hin]; [discriminate|]).
  by apply elem_of_nil in Hin.
Defined.

End ReindentRunFacts.

(** ** The [using] line *)

Section UsingFacts.

Import Cs0535.
Implicit Types (w : world) (file_path q : string) (s l content : text)
  (lines : list text).

Lemma split_nl_line l rest :
  NL ∉ l -> split_nl (l ++ NL :: rest) = l :: split_nl rest.
Proof.
  induction l as [|c l IH]; intros Hnl; cbn [app split_nl].
  - by rewrite Ascii.eqb_refl.
  - apply not_elem_of_cons in Hnl as [Hc Hl].
    rewrite eqb_NL, bool_decide_eq_false_2 by done. by rewrite IH.
Qed.

Lemma split_nl_one_line l : NL ∉ l -> split_nl l = [l].
Proof.
  induction l as [|c l IH]; intros Hnl; [done|]. cbn [split_nl].
  apply not_elem_of_cons in Hnl as [Hc Hl].
  rewrite eqb_NL, bool_decide_eq_false_2 by done. by rewrite IH.
Qed.

Lemma split_nl_lines s : Forall (fun l => NL ∉ l) (split_nl s).
Proof.
  induction s as [|c s IH]; cbn [split_nl].
  - constructor; [apply not_elem_of_nil|constructor].
  - rewrite eqb_NL. case_bool_decide as Hc.
    + constructor; [apply not_elem_of_nil|done].
    + destruct (split_nl s) as [|l ls].
      * constructor; [|constructor]. apply not_NL_cons; [done|].
        apply not_elem_of_nil.
      * inversion IH; subst. constructor; [|done]. by apply not_NL_cons.
Qed.

(** Splitting what was joined gives the lines back. *)
Lemma split_join lines :
  lines <> [] -> Forall (fun l => NL ∉ l) lines ->
  split_nl (join_nl lines) = lines.
Proof.
  intros Hne Hall. induction Hall as [|l ls Hl Hls IH]; [done|].
  destruct ls as [|l' ls]; [by apply split_nl_one_line|].
  rewrite join_nl_cons by done. rewrite split_nl_line by done.
  by rewrite IH.
Qed.

Lemma find_last_using_last i lines z :
  existsb is_using lines = true ->
  exists k anchor,
    find_last_using i lines z = Z.of_nat (i + k)
    /\ lines !! k = Some anchor /\ is_using anchor = true
    /\ existsb is_using (drop (S k) lines) = false.
Proof.
  revert i z. induction lines as [|l rest IH]; intros i z Hsome; [done|].
  cbn [find_last_using]. destruct (existsb is_using rest) eqn:Hrest.
  - destruct (IH (S i) (if is_using l then Z.of_nat i else z) eq_refl)
      as (k & anchor & Hk & Hl & Hu & Hafter).
    exists (S k), anchor. rewrite Hk. repeat split; try done.
    f_equal. lia.
  - simpl in Hsome. rewrite Hrest, orb_false_r in Hsome.
    rewrite find_last_using_none, Hsome by done.
    exists 0, l. repeat split; try done. f_equal. lia.
Qed.

Lemma add_using_contains content content' :
  add_using content = Some content' ->
  contains using_line content = false
  /\ has_using content = true
  /\ contains using_line content' = true.
Proof.
  intros Hadd.
  destruct (contains using_line content) eqn:Hc;
    [by rewrite add_using_present in Hadd|].
  destruct (has_using content) eqn:Hu;
    [|by rewrite add_using_no_anchor in Hadd].
  repeat split. destruct (add_using_inserts _ Hc Hu) as [k Hk].
  rewrite Hk in Hadd. injection Hadd as <-.
  rewrite contains_occurrences, occurrences_insert_line, join_split
    by auto using using_line_one_line, using_line_not_nil.
  rewrite contains_occurrences in Hc.
  by destruct (occurrences using_line content).
Qed.

Lemma injected_twice content : injected (injected content) = injected content.
Proof.
  destruct (add_using content) as [content'|] eqn:Ha.
  - destruct (add_using_contains _ _ Ha) as (_ & _ & Hin).
    assert (Hinj : injected content = content')
      by (unfold injected; by rewrite Ha).
    rewrite Hinj. unfold injected. by rewrite add_using_present.
  - assert (Hinj : injected content = content)
      by (unfold injected; by rewrite Ha).
    by rewrite !Hinj.
Qed.

(** X8. When [check_and_add_using] inserts, the new line comes right
    after the last line passing the [using] test, and every line of the
    document is kept, in order. *)
Theorem using_inserted_after_last content content' :
  add_using content = Some content' ->
  exists before anchor after,
    split_nl content = before ++ anchor :: after
    /\ is_using anchor = true
    /\ existsb is_using after = false
    /\ split_nl content' = before ++ anchor :: using_line :: after.
Proof.
  intros Hadd. destruct (add_using_contains _ _ Hadd) as (Hc & Hu & _).
  unfold add_using in Hadd. rewrite Hc in Hadd. cbn [negb] in Hadd.
  destruct (find_last_using_last 0 (split_nl content) (-1) Hu)
    as (k & anchor & Hk & Hl & Hanchor & Hafter).
  rewrite Hk in Hadd. cbn [Nat.add] in Hadd.
  rewrite (proj2 (Z.leb_le 0 (Z.of_nat k))) in Hadd by lia.
  replace (Z.to_nat (Z.of_nat k + 1)) with (S k) in Hadd by lia.
  injection Hadd as <-.
  exists (take k (split_nl content)), anchor, (drop (S k) (split_nl content)).
  split; [by rewrite take_drop_middle|]. do 2 (split; [done|]).
  unfold list_insert_at. rewrite (take_S_r _ _ _ Hl), <- app_assoc.
  cbn [app]. apply split_join; [by destruct (take k (split_nl content))|].
  pose proof (split_nl_lines content) as Hall.
  apply Forall_app. split; [by apply Forall_take|].
  constructor.
  - rewrite Forall_forall in Hall. apply Hall.
    by eapply list_elem_of_lookup_2.
  - constructor; [apply using_line_one_line|by apply Forall_drop].
Qed.

Lemma using_inserted_after_last_witness :
  exists before anchor after,
    split_nl (str "using System;
using System.Linq;
namespace N { }") = before ++ anchor :: after
    /\ is_using anchor = true
    /\ existsb is_using after = false
    /\ split_nl (str "using System;
using System.Linq;
using AiDotNet.Interpretability;
namespace N { }") = before ++ anchor :: using_line :: after.
Proof.
  apply (using_inserted_after_last (str "using System;
using System.Linq;
namespace N { }")). reflexivity.
Defined.

(** X9. On a regular file [check_and_add_using] returns [True] exactly
    when the line was absent and some line passes the [using] test; a
    call that returns [False] leaves the world as it was; afterwards the
    file holds the line exactly when it held it before or such a line
    exists. *)
Theorem check_and_add_using_post w file_path content :
  file_text w file_path = Some content ->
  let w' := run (check_and_add_using file_path) w in
  let added := negb (contains using_line content) && has_using content in
  result (check_and_add_using file_path) w = inr added
  /\ (added = false -> w' = w)
  /\ exists content',
       file_text w' file_path = Some content'
       /\ contains using_line content'
          = contains using_line content || has_using content.
Proof.
  intros Hf. pose proof Hf as Hfs%file_text_Some. cbv zeta.
  unfold run, result. rewrite (check_and_add_using_file _ _ _ Hfs).
  destruct (add_using content) as [content'|] eqn:Hadd.
  - destruct (add_using_contains _ _ Hadd) as (Hc & Hu & Hin).
    rewrite Hc, Hu. cbn [fst snd negb andb orb]. split; [done|].
    split; [done|]. exists content'. split; [|done].
    unfold file_text. cbn [fs]. by rewrite lookup_insert_eq.
  - cbn [fst snd].
    assert (Hadded : negb (contains using_line content)
                     && has_using content = false).
    { destruct (contains using_line content) eqn:Hc; [done|].
      destruct (has_using content) eqn:Hu; [|done].
      destruct (add_using_inserts _ Hc Hu) as [k Hk]. congruence. }
    rewrite Hadded. split; [done|]. split; [done|].
    exists content. split; [done|].
    destruct (contains using_line content); [done|].
    by destruct (has_using content).
Qed.

Lemma check_and_add_using_post_witness :
  let w := World {[ "A.cs"%string :=
                      File (str "using System;
class A { }") ]} [] [] in
  result (check_and_add_using "A.cs") w = inr true
  /\ exists content',
       file_text (run (check_and_add_using "A.cs") w) "A.cs"
       = Some content'
       /\ contains using_line content' = true.
Proof.
  intros w.
  destruct (check_and_add_using_post w "A.cs" (str "using System;
class A { }")) as (Hres & _ & Hpost); [vm_compute; reflexivity|].
  split; [exact Hres|exact Hpost].
Defined.

(** *** The loop of [fix_remaining_cs0535.py] *)

Lemma start_marker_one_line : NL ∉ Reindent.start_marker.
Proof.
  unfold Reindent.start_marker. repeat (apply not_NL_cons; [discriminate|]).
  apply not_elem_of_nil.
Qed.

(** Inserting the [using] line neither creates nor hides the region
    marker. *)
Lemma injected_keeps_region content :
  contains Reindent.start_marker (injected content)
  = contains Reindent.start_marker content.
Proof.
  unfold injected. destruct (add_using content) as [content'|] eqn:Hadd;
    [|done].
  destruct (add_using_contains _ _ Hadd) as (Hc & Hu & _).
  destruct (add_using_inserts _ Hc Hu) as [k Hk].
  rewrite Hk in Hadd. injection Hadd as <-. cbn [from_option id].
  rewrite !contains_occurrences.
  rewrite (occurrences_join Reindent.start_marker start_marker_one_line)
    by discriminate.
  rewrite <- (join_split content) at 2.
  rewrite (occurrences_join Reindent.start_marker start_marker_one_line)
    by discriminate.
  unfold list_insert_at.
  rewrite <- (take_drop k (split_nl content)) at 3.
  rewrite !sum_list_with_app. cbn [sum_list_with].
  replace (occurrences Reindent.start_marker using_line) with 0
    by reflexivity.
  done.
Qed.

Lemma add_using_added content :
  negb (contains using_line content) && has_using content
  = bool_decide (is_Some (add_using content)).
Proof.
  destruct (add_using content) as [content'|] eqn:Hadd.
  - destruct (add_using_contains _ _ Hadd) as (-> & -> & _).
    by rewrite bool_decide_eq_true_2.
  - rewrite bool_decide_eq_false_2 by (by intros [? ?]).
    destruct (contains using_line content) eqn:Hc; [done|].
    destruct (has_using content) eqn:Hu; [|done].
    destruct (add_using_inserts _ Hc Hu) as [k Hk]. congruence.
Qed.

Lemma check_path_file w file_path content :
  fs w !! file_path = Some (File content) ->
  check_path file_path w
  = (World (match add_using content with
            | Some content' => <[file_path := File content']> (fs w)
            | None => fs w
            end)
           (writes w ++ match add_using content with
                        | Some content' => [(file_path, content')]
                        | None => []
                        end)
           (stdout w ++ check_report file_path content),
     inr tt).
Proof.
  intros Hf. unfold check_path, bind at 1, path_exists. rewrite Hf.
  rewrite bool_decide_eq_true_2 by eauto.
  unfold bind at 1, print at 1.
  set (w0 := World (fs w) (writes w) _).
  assert (Hf0 : fs w0 !! file_path = Some (File content)) by done.
  unfold bind at 1. rewrite (check_and_add_using_file _ _ _ Hf0).
  unfold check_report. rewrite add_using_added.
  pose proof (injected_keeps_region content) as Hreg. unfold injected in Hreg.
  destruct (add_using content) as [content'|] eqn:Hadd; cbn [from_option id] in Hreg.
  - rewrite bool_decide_eq_true_2 by eauto.
    unfold bind, check_implementation, bind, read_file, ret, print.
    cbn [fs writes stdout]. rewrite lookup_insert_eq, Hreg.
    destruct (contains Reindent.start_marker content); subst w0;
      cbn [negb fs writes stdout str_of_bool]; rewrite <- ?app_assoc;
      cbn [app]; done.
  - rewrite bool_decide_eq_false_2 by (by intros [? ?]).
    unfold bind, check_implementation, bind, read_file, ret, print.
    rewrite Hf0.
    destruct (contains Reindent.start_marker content); subst w0;
      cbn [negb fs writes stdout str_of_bool]; rewrite <- ?app_assoc;
      cbn [app]; rewrite ?app_nil_r; done.
Qed.

(** X10. For a regular file one turn of the loop prints the "Checking"
    line, the "Added" line exactly when the line was inserted, and the
    verdict of [check_implementation], which is read after the insertion
    and is the verdict on the content the file had before; the warning
    follows exactly when the region is missing. *)
Theorem check_path_regular_file w file_path content :
  file_text w file_path = Some content ->
  let w' := run (check_path file_path) w in
  result (check_path file_path) w = inr tt
  /\ stdout w' = stdout w ++ check_report file_path content
  /\ file_text w' file_path = Some (injected content).
Proof.
  intros Hf%file_text_Some. cbv zeta. unfold run, result.
  rewrite (check_path_file _ _ _ Hf). cbn [fst snd stdout].
  repeat split. unfold file_text, injected. cbn [fs].
  destruct (add_using content); cbn [from_option id].
  - by rewrite lookup_insert_eq.
  - by rewrite Hf.
Qed.

Lemma check_path_regular_file_witness :
  let w := World {[ "A.cs"%string :=
                      File (str "using System;
class A { }") ]} [] [] in
  stdout (run (check_path "A.cs") w)
  = [ NL :: str "Checking A.cs";
      str "Added using statement to A.cs";
      str "  Has IInterpretableModel implementation: False";
      str "  WARNING: Missing implementation!" ].
Proof.
  intros w.
  destruct (check_path_regular_file w "A.cs" (str "using System;
class A { }")) as (_ & Hout & _); [vm_compute; reflexivity|].
  rewrite Hout. vm_compute. reflexivity.
Defined.

Lemma check_path_fs w file_path :
  fs w !! file_path <> Some Dir ->
  exists w1,
    check_path file_path w = (w1, inr tt)
    /\ forall q, fs w1 !! q = with_using [file_path] q (fs w !! q).
Proof.
  intros Hnd. unfold with_using.
  destruct (fs w !! file_path) as [[content|]|] eqn:Hf; [|done|].
  - rewrite (check_path_file _ _ _ Hf). eexists. split; [done|].
    intros q. cbn [fs]. unfold injected.
    destruct (decide (q = file_path)) as [->|Hne].
    + rewrite Hf.
      rewrite decide_True by (by apply list_elem_of_singleton).
      destruct (add_using content); cbn [from_option id];
        [by rewrite lookup_insert_eq|by rewrite Hf].
    + assert (Hq : match add_using content with
                   | Some content' => <[file_path := File content']> (fs w)
                   | None => fs w
                   end !! q = fs w !! q)
        by (destruct (add_using content); [by rewrite lookup_insert_ne|done]).
      rewrite Hq. destruct (fs w !! q) as [[c|]|]; [|done..].
      by rewrite decide_False by (by intros ?%list_elem_of_singleton).
  - unfold check_path, bind, path_exists, print. rewrite Hf.
    rewrite bool_decide_eq_false_2 by (by intros [? ?]).
    eexists. split; [done|]. intros q. cbn [fs].
    destruct (fs w !! q) as [[c|]|] eqn:Hq; [|done..].
    rewrite decide_False; [done|]. intros ->%list_elem_of_singleton.
    congruence.
Qed.

Lemma check_all_fs files w :
  (forall p, p ∈ visited files -> fs w !! p <> Some Dir) ->
  exists w1,
    check_all files w = (w1, inr tt)
    /\ forall q, fs w1 !! q = with_using (visited files) q (fs w !! q).
Proof.
  revert w. induction files as [|file_info rest IH]; intros w Hnd.
  - exists w. split; [done|]. intros q. unfold with_using.
    destruct (fs w !! q) as [[c|]|]; [|done..].
    by rewrite decide_False by apply not_elem_of_nil.
  - set (p := path_join project_root file_info.1).
    destruct (check_path_fs w p) as (w1 & Hrun & Hfs);
      [apply Hnd; by left|].
    destruct (IH w1) as (w2 & Hrun2 & Hfs2).
    { intros q Hq. rewrite Hfs. intros Hdir. apply (Hnd q); [by right|].
      unfold with_using in Hdir. by destruct (fs w !! q) as [[c|]|]. }
    exists w2. split.
    { cbn [check_all]. unfold bind. fold p. by rewrite Hrun. }
    intros q. rewrite Hfs2, Hfs. unfold with_using.
    change (visited (file_info :: rest)) with (p :: visited rest).
    destruct (fs w !! q) as [[c|]|]; [|done..]. do 2 f_equal.
    destruct (decide (q ∈ visited rest)) as [Hin|Hnin].
    + rewrite (decide_True (P := q ∈ p :: visited rest))
        by (apply elem_of_cons; by right).
      case_decide; [|done]. apply injected_twice.
    + destruct (decide (q = p)) as [->|Hne].
      * rewrite (decide_True (P := p ∈ [p]))
          by (by apply list_elem_of_singleton).
        by rewrite (decide_True (P := p ∈ p :: visited rest))
          by (apply elem_of_cons; by left).
      * rewrite (decide_False (P := q ∈ [p]))
          by (by intros ?%list_elem_of_singleton).
        by rewrite (decide_False (P := q ∈ p :: visited rest))
          by (by intros [?|?]%elem_of_cons).
Qed.

(** X11. When no visited path is a directory the script runs to its
    last line, ["Done!"]. Afterwards every regular file it visited is
    the file after one [check_and_add_using], however often it is
    listed; a missing path stays missing and every other path is as it
    was. *)
Theorem cs0535_main files w :
  (forall p, p ∈ visited files -> fs w !! p <> Some Dir) ->
  let w' := run (main_on files) w in
  result (main_on files) w = inr tt
  /\ last (stdout w') = Some (NL :: str "Done!")
  /\ forall q, fs w' !! q = with_using (visited files) q (fs w !! q).
Proof.
  intros Hnd. destruct (check_all_fs files w Hnd) as (w1 & Hrun & Hfs).
  cbv zeta. unfold run, result, main_on, bind. rewrite Hrun.
  unfold print. cbn [fst snd stdout fs]. split; [done|].
  split; [apply last_snoc|done].
Qed.

Lemma cs0535_main_witness :
  let files := [("A.cs", ["A"]); ("Missing.cs", []); ("A.cs", [])]%string in
  let w := World {[ "/mnt/c/projects/AiDotNet/A.cs"%string :=
                      File (str "using System;
class A { }") ]} [] [] in
  result (main_on files) w = inr tt
  /\ file_text (run (main_on files) w) "/mnt/c/projects/AiDotNet/A.cs"
     = Some (str "using System;
using AiDotNet.Interpretability;
class A { }").
Proof.
  intros files w.
  assert (Hnd : forall p, p ∈ visited files -> fs w !! p <> Some Dir).
  { intros p Hp. vm_compute in Hp.
    repeat (apply elem_of_cons in Hp as [->|Hp]);
      [vm_compute; discriminate ..|by apply elem_of_nil in Hp]. }
  destruct (cs0535_main files w Hnd) as (Hres & _ & Hfs).
  split; [exact Hres|]. unfold file_text. rewrite Hfs.
  vm_compute. reflexivity.
Defined.

End UsingFacts.

(** ** [fix_async_errors.py] on the file system *)

Section AsyncRunFacts.

Import AsyncErrors.
Implicit Types (w : world) (file_path : string) (content : text)
  (files : list string).

Lemma process_file_quiet w file_path :
  exists lines, fst (process_file file_path w) = say w lines.
Proof.
  destruct (fs w !! file_path) as [[content|]|] eqn:Hf.
  - rewrite (process_file_file _ _ _ Hf). eauto.
  - rewrite (process_file_dir _ _ Hf). exists []. by rewrite say_nil.
  - rewrite (process_file_missing _ _ Hf). eauto.
Qed.

Lemma count_fixed_quiet files n w :
  exists lines, fst (count_fixed files n w) = say w lines.
Proof.
  revert n w. induction files as [|p rest IH]; intros n w.
  - exists []. by rewrite say_nil.
  - cbn [count_fixed]. unfold bind.
    destruct (process_file_quiet w p) as [lines Hp].
    destruct (process_file p w) as [w1 [e|fixed]]; cbn [fst] in Hp; subst w1.
    + eauto.
    + destruct (IH (if fixed then n + 1 else n) (say w lines))
        as [lines' Hrest].
      exists (lines ++ lines'). by rewrite Hrest, say_say.
Qed.

Lemma count_fixed_stops pre d post n w :
  (forall p, p ∈ pre -> fs w !! p <> Some Dir) ->
  fs w !! d = Some Dir ->
  count_fixed (pre ++ d :: post) n w
  = (say w (concat (file_report w <$> pre)), inl (IsADirectoryError d)).
Proof.
  revert n w. induction pre as [|p pre IH]; intros n w Hnd Hd.
  - cbn [app count_fixed]. unfold bind.
    rewrite (process_file_dir _ _ Hd). simpl. by rewrite say_nil.
  - cbn [app count_fixed]. unfold bind.
    rewrite process_file_report by (apply Hnd; by left).
    rewrite IH; [by rewrite say_say| |done].
    intros q Hq. apply Hnd. by right.
Qed.

(** X12. [main] guards only against a missing path. At the first path of
    its list that exists and cannot be opened as a file the exception
    leaves [main]: the paths before it have been reported, the paths
    after it are not visited and the summary line is not printed. *)
Theorem main_stops_at_unreadable pre d post w :
  (forall p, p ∈ pre -> fs w !! p <> Some Dir) ->
  fs w !! d = Some Dir ->
  main_on (pre ++ d :: post) w
  = (say w (concat (file_report w <$> pre)), inl (IsADirectoryError d)).
Proof.
  intros Hnd Hd. unfold main_on, bind.
  by rewrite (count_fixed_stops pre d post 0 w Hnd Hd).
Qed.

Lemma main_stops_at_unreadable_witness :
  let w := World {[ "dir"%string := Dir;
                    "B.cs"%string := File (str "async Task F() { }") ]}
                 [] [] in
  main_on ["Missing.cs"; "dir"; "B.cs"]%string w
  = (say w [str "File not found: Missing.cs"],
     inl (IsADirectoryError "dir")).
Proof.
  intros w.
  pose proof (main_stops_at_unreadable ["Missing.cs"%string] "dir"
                ["B.cs"%string] w) as Hstop.
  cbn [app] in Hstop. rewrite Hstop.
  - vm_compute. reflexivity.
  - intros p ->%list_elem_of_singleton. vm_compute. discriminate.
  - vm_compute. reflexivity.
Defined.

(** X13. Whatever the files are and however the run ends, [main] changes
    no file and makes no write: it only prints. *)
Theorem main_only_prints files w :
  let w' := run (main_on files) w in
  fs w' = fs w /\ writes w' = writes w
  /\ exists lines, stdout w' = stdout w ++ lines.
Proof.
  cbv zeta. unfold run, main_on, bind.
  destruct (count_fixed_quiet files 0 w) as [lines Hq].
  destruct (count_fixed files 0 w) as [w1 [e|n]]; cbn [fst] in *; subst w1.
  - repeat split. by exists lines.
  - unfold print. cbn [fs writes stdout say]. repeat split.
    rewrite <- app_assoc. eauto.
Qed.

Lemma finditer_from_no_literal l r skip pos (s : text) :
  contains l s = false -> Re.finditer_from (Re.Lit l :: r) skip pos s = [].
Proof.
  revert skip pos. induction s as [|c s IH]; intros skip pos Hno; [done|].
  cbn [contains] in Hno. apply orb_false_elim in Hno as [Hstart Hrest].
  cbn [Re.finditer_from Re.match_here]. rewrite Hstart.
  destruct skip; by apply IH.
Qed.

(** X14. A file in which the word [async] does not occur is never
    reported: nothing is printed and the world stays as it is. A file in
    which the word [await] does not occur has every [async Task] counted
    as a deficit. *)
Theorem deficit_blind_spots w file_path content :
  file_text w file_path = Some content ->
  (contains (str "async") content = false ->
   fix_async_method_without_await file_path w
   = (w, inr (false, content)))
  /\ (contains (str "await") content = false ->
      deficit_report file_path content
      = if 0 <? async_count content
        then [found_line file_path (async_count content)] else []).
Proof.
  intros Hf%file_text_Some. split; intros Hno.
  - rewrite (fix_async_file _ _ _ Hf). unfold deficit_report.
    assert (Hz : async_count content = 0).
    { unfold async_count. rewrite length_findall. unfold Re.finditer.
      unfold async_pattern. by rewrite finditer_from_no_literal. }
    rewrite Hz. replace (await_count content <? 0) with false
      by (symmetry; apply Nat.ltb_ge; lia).
    by rewrite say_nil.
  - unfold deficit_report.
    assert (Hz : await_count content = 0).
    { unfold await_count. rewrite length_findall. unfold Re.finditer.
      unfold await_pattern. by rewrite finditer_from_no_literal. }
    by rewrite Hz, Nat.sub_0_r.
Qed.

Lemma deficit_blind_spots_witness :
  let content := str "public Task F() { return Task.CompletedTask; }" in
  let w := World {[ "A.cs"%string := File content ]} [] [] in
  fix_async_method_without_await "A.cs" w = (w, inr (false, content)).
Proof.
  intros content w.
  destruct (deficit_blind_spots w "A.cs" content) as [Hasync _];
    [vm_compute; reflexivity|].
  apply Hasync. vm_compute. reflexivity.
Defined.

End AsyncRunFacts.

(** ** Markers and writes of the re-indent pass *)

Section MarkerFacts.

Import Reindent.
Implicit Types (w : world) (content line : text) (lines : list text)
  (files : list string).

Lemma end_marker_one_line : NL ∉ end_marker.
Proof.
  unfold end_marker. repeat (apply not_NL_cons; [discriminate|]).
  apply not_elem_of_nil.
Qed.

(** No occurrence of a marker starts within the four spaces put in front
    of a line. *)
Lemma occurrences_start_quantum line :
  occurrences start_marker (quantum ++ line) = occurrences start_marker line.
Proof. reflexivity. Qed.

Lemma occurrences_end_quantum line :
  occurrences end_marker (quantum ++ line) = occurrences end_marker line.
Proof. reflexivity. Qed.

Lemma occurrences_writelines D lines :
  NL ∉ D -> D <> [] -> well_cut lines ->
  occurrences D (writelines lines) = sum_list_with (occurrences D) lines.
Proof.
  intros HD Hne Hwc. unfold writelines.
  induction Hwc as [|l Hl Hnl|l ls Hnl Hls IH]; cbn [concat sum_list_with].
  - by apply occurrences_nil.
  - rewrite app_nil_r. lia.
  - rewrite <- app_assoc. cbn [app].
    rewrite !occurrences_line_end, IH, occurrences_nil by done. lia.
Qed.

Lemma sum_occurrences_fix_loop D in_region lines :
  (forall line, occurrences D (quantum ++ line) = occurrences D line) ->
  sum_list_with (occurrences D) (fix_loop in_region lines)
  = sum_list_with (occurrences D) lines.
Proof.
  intros HD. revert in_region.
  induction lines as [|l rest IH]; intros b; [done|].
  cbn [fix_loop]. pose proof (step_out b l) as Hout.
  destruct (step b l) as [b' out]. cbn [snd] in Hout.
  cbn [sum_list_with]. rewrite IH.
  destruct Hout as [-> | ->]; [done|by rewrite HD].
Qed.

Lemma occurrences_reindent D content :
  NL ∉ D -> D <> [] ->
  (forall line, occurrences D (quantum ++ line) = occurrences D line) ->
  occurrences D (reindent content) = occurrences D content.
Proof.
  intros HD Hne Hq. unfold reindent.
  rewrite occurrences_writelines
    by auto using fix_loop_well_cut, readlines_well_cut.
  rewrite sum_occurrences_fix_loop by done.
  rewrite <- occurrences_writelines by auto using readlines_well_cut.
  unfold writelines. by rewrite concat_readlines.
Qed.

(** X15. The pass neither creates nor destroys a marker: the start
    marker and the end marker occur in the output as often as in the
    input. *)
Theorem reindent_keeps_markers content :
  occurrences start_marker (reindent content)
  = occurrences start_marker content
  /\ occurrences end_marker (reindent content)
     = occurrences end_marker content.
Proof.
  split.
  - apply occurrences_reindent;
      [apply start_marker_one_line|discriminate|
       apply occurrences_start_quantum].
  - apply occurrences_reindent;
      [apply end_marker_one_line|discriminate|
       apply occurrences_end_quantum].
Qed.

Lemma attempt_writes w path :
  exists w1,
    attempt path w = (w1, inr tt)
    /\ (fst <$> writes w1)
       = (fst <$> writes w)
           ++ filter (fun p => is_Some (file_text w p)) [path]
    /\ forall q, is_Some (file_text w1 q) <-> is_Some (file_text w q).
Proof.
  destruct (attempt_spec w path) as (w1 & Hrun & _ & Hw & Htext & _).
  exists w1. split; [done|]. split.
  - rewrite Hw, fmap_app. f_equal.
    destruct (file_text w path) as [c|] eqn:Hf.
    + rewrite filter_cons_True by (rewrite Hf; eauto). done.
    + rewrite filter_cons_False by (rewrite Hf; by intros [? ?]). done.
  - intros q. rewrite Htext. case_decide; [|done].
    by rewrite fmap_is_Some.
Qed.

(** X16. The batch writes exactly once for every listed path that names
    a regular file, in the order of the list, and writes to no other
    path: a missing path is not created and a path outside the list is
    never opened for writing. *)
Theorem fix_all_writes files w :
  fst <$> writes (run (fix_all files) w)
  = (fst <$> writes w) ++ filter (fun p => is_Some (file_text w p)) files.
Proof.
  revert w. induction files as [|p rest IH]; intros w.
  - unfold run. simpl. by rewrite app_nil_r.
  - destruct (attempt_writes w p) as (w1 & Hrun & Hw & Hsome).
    assert (Heq : fix_all (p :: rest) w = fix_all rest w1)
      by (cbn [fix_all]; unfold bind; by rewrite Hrun).
    unfold run in *. rewrite Heq, IH, Hw, <- app_assoc. f_equal.
    rewrite (list_filter_iff _ (fun p => is_Some (file_text w p)) rest)
      by apply Hsome.
    by rewrite <- filter_app.
Qed.

End MarkerFacts.
